(** * lounge-maintenance: retention policy over upload folders

    A shallow embedding of [maintain.py] and the properties of its scanner,
    its storage evaluation and its oldest-first eviction.

    Conventions of the embedding.
    - Python integers are [Z]; a [datetime] is the number of microseconds it
      denotes, counted from [datetime.min], so that [<] on dates is [<] on
      [Z] and [timedelta(days=d)] is [d * 86400000000].  The [OverflowError]
      of a [timedelta] or a date out of range is not modelled: the properties
      that depend on the cutoff are stated for [0 <= d <= 999999999] and a
      cutoff that is not before [datetime.min].
    - The 3-tuples [(full_name, date, size)] of the source are Rocq triples.
    - Lists and [StringIO] buffers are objects of a heap, addressed by
      reference, because the source passes them around and mutates them.
    - The filesystem, the heap, the two Slack globals, the clock and
      everything the script prints or posts form the [world]; every function
      of the source is a state transformer on it that returns a value or
      raises a Python exception.
    - A line [f"{filename} ({mdate})\n"] written to a report is kept as the
      pair [(filename, mdate)]; a formatted message is kept as its format
      (a constructor of [text]) with the interpolated values.  A report is
      the empty string exactly when no line was written to it. *)

From stdpp Require Import gmap strings list sorting.
From Stdlib Require Import ZArith Lia Ascii.

Local Open Scope Z_scope.

(** ** Values, exceptions, the world *)

Inductive exn :=
| SystemExit (msg : string)
| KeyError (key : string)
| IndexError
| TypeError
| ValueError
| AttributeError
| FileNotFoundError (path : string)
| OutOfFuel.  (* not a Python exception: a loop of the model ran out of steps *)

Inductive result (A : Type) :=
| Ok (a : A)
| Raise (e : exn).
Arguments Ok {A} a.
Arguments Raise {A} e.

(** Scalar values of the JSON configuration. *)
Inductive pyval :=
| PNone
| PInt (n : Z)
| PStr (s : string).

Record file_stat := FileStat { st_mtime : Z; st_size : Z }.

(** [(full_name, date, size)], indexed [x[0]], [x[1]], [x[2]]. *)
Definition file_tuple : Type := string * Z * Z.
Definition item0 (x : file_tuple) : string := x.1.1.
Definition item1 (x : file_tuple) : Z := x.1.2.
Definition item2 (x : file_tuple) : Z := x.2.

(** One [write] of [delete_file]: the file name and its date. *)
Definition report_line : Type := string * Z.

Inductive pyobj :=
| PyList (items : list file_tuple)
| StringIO (written : list report_line).

Inductive text :=
| HeaderText (markup : bool) (folder_name : pyval)
| AgedOutText (days_to_keep : Z)
| OverLimitText (to_free : Z)
| WarningText (markup : bool) (total_size warn_storage : Z).

Inductive report_title := OldFilesTitle | OverQuotaTitle.

(** What the script prints and what it sends to Slack.  The line that echoes
    the HTTP response after a post is not part of the model. *)
Inductive event :=
| Print (plain : text)
| PrintReport (content : list report_line)
| ChatPostMessage (token : option string) (channel : string)
    (blocks : option text) (plain : text)
| FilesUpload (token : option string) (channel : string)
    (content : list report_line) (title : report_title).

Definition loc := positive.

Record world := World {
  fs_files : gmap string file_stat;
  fs_walk : gmap string (list (string * list string));
  clock : Z;
  heap : gmap loc pyobj;
  SLACK_TOKEN : option string;
  SLACK_CHANNEL : option string;
  output : list event
}.

Definition set_files (f : gmap string file_stat) (w : world) : world :=
  World f (fs_walk w) (clock w) (heap w) (SLACK_TOKEN w) (SLACK_CHANNEL w) (output w).
Definition set_heap (h : gmap loc pyobj) (w : world) : world :=
  World (fs_files w) (fs_walk w) (clock w) h (SLACK_TOKEN w) (SLACK_CHANNEL w) (output w).
Definition set_SLACK_TOKEN (v : string) (w : world) : world :=
  World (fs_files w) (fs_walk w) (clock w) (heap w) (Some v) (SLACK_CHANNEL w) (output w).
Definition set_SLACK_CHANNEL (v : string) (w : world) : world :=
  World (fs_files w) (fs_walk w) (clock w) (heap w) (SLACK_TOKEN w) (Some v) (output w).
Definition emit (e : event) (w : world) : world :=
  World (fs_files w) (fs_walk w) (clock w) (heap w) (SLACK_TOKEN w) (SLACK_CHANNEL w)
        (output w ++ [e]).

(** ** The monad of the script: state and exceptions *)

Definition M (A : Type) : Type := world → result A * world.

Definition ret {A} (a : A) : M A := λ w, (Ok a, w).
Definition raise {A} (e : exn) : M A := λ w, (Raise e, w).
Definition bind {A B} (m : M A) (k : A → M B) : M B :=
  λ w, match m w with
       | (Ok a, w') => k a w'
       | (Raise e, w') => (Raise e, w')
       end.

Notation "'let*' x := m 'in' k" := (bind m (λ x, k))
  (at level 10, x name, m at level 100, k at level 200, only parsing).
Notation "m ;; k" := (bind m (λ _, k))
  (at level 100, k at level 200, right associativity, only parsing).

Definition sys_exit {A} (msg : string) : M A := raise (SystemExit msg).

(** ** Builtins: strings and integers

    A Python [str] is kept as its UTF-8 encoding, one [ascii] per byte.
    [strip] removes what [str.strip] removes, the characters for which
    [str.isspace] holds: U+0009 to U+000D, U+001C to U+0020, U+0085,
    U+00A0, U+1680, U+2000 to U+200A, U+2028, U+2029, U+202F, U+205F and
    U+3000, each recognised by its encoding.  [int] strips the same way,
    then reads an optional sign and ASCII decimal digits, with single
    underscores between digits; the decimal digits of other scripts, which
    Python also reads, are not covered: where the model's [int] gives a
    number Python gives the same, a string the model cannot read may still
    be one Python reads. *)

(** white space of one byte: U+0009 to U+000D and U+001C to U+0020 *)
Definition is_space (a : ascii) : bool :=
  let n := nat_of_ascii a in
  ((9 <=? n)%nat && (n <=? 13)%nat) || ((28 <=? n)%nat && (n <=? 32)%nat).

(** white space of two bytes: U+0085 (C2 85) and U+00A0 (C2 A0) *)
Definition is_space2 (a b : ascii) : bool :=
  (nat_of_ascii a =? 194)%nat &&
  ((nat_of_ascii b =? 133)%nat || (nat_of_ascii b =? 160)%nat).

(** white space of three bytes: U+1680 (E1 9A 80), U+2000 to U+200A
    (E2 80 80 to E2 80 8A), U+2028, U+2029, U+202F (E2 80 A8, A9, AF),
    U+205F (E2 81 9F) and U+3000 (E3 80 80) *)
Definition is_space3 (a b c : ascii) : bool :=
  let x := nat_of_ascii a in
  let y := nat_of_ascii b in
  let z := nat_of_ascii c in
  ((x =? 225)%nat && (y =? 154)%nat && (z =? 128)%nat) ||
  ((x =? 226)%nat && (y =? 128)%nat &&
   (((128 <=? z)%nat && (z <=? 138)%nat) || (z =? 168)%nat || (z =? 169)%nat
    || (z =? 175)%nat)) ||
  ((x =? 226)%nat && (y =? 129)%nat && (z =? 159)%nat) ||
  ((x =? 227)%nat && (y =? 128)%nat && (z =? 128)%nat).

(** The string without the white space it starts with.  [backwards] is for
    a string that is read from its last byte to its first: the bytes of a
    character then come in reverse. *)
Fixpoint lstrip_bytes (backwards : bool) (s : string) : string :=
  match s with
  | EmptyString => EmptyString
  | String a s1 =>
      if is_space a then lstrip_bytes backwards s1
      else match s1 with
           | EmptyString => s
           | String b s2 =>
               if (if backwards then is_space2 b a else is_space2 a b)
               then lstrip_bytes backwards s2
               else match s2 with
                    | EmptyString => s
                    | String c s3 =>
                        if (if backwards then is_space3 c b a else is_space3 a b c)
                        then lstrip_bytes backwards s3
                        else s
                    end
           end
  end.

Definition lstrip (s : string) : string := lstrip_bytes false s.

Definition strip (s : string) : string :=
  String.rev (lstrip_bytes true (String.rev (lstrip s))).

Definition digit_of (a : ascii) : option Z :=
  let n := nat_of_ascii a in
  if ((48 <=? n)%nat && (n <=? 57)%nat) then Some (Z.of_nat (n - 48)) else None.

Fixpoint parse_digits (acc : Z) (after_digit : bool) (s : string) : option Z :=
  match s with
  | EmptyString => if after_digit then Some acc else None
  | String a s' =>
      if Ascii.eqb a "_"%char
      then (if after_digit then parse_digits acc false s' else None)
      else match digit_of a with
           | Some d => parse_digits (10 * acc + d) true s'
           | None => None
           end
  end.

Definition int_of_str (s : string) : option Z :=
  match strip s with
  | String a s' =>
      if Ascii.eqb a "-"%char then Z.opp <$> parse_digits 0 false s'
      else if Ascii.eqb a "+"%char then parse_digits 0 false s'
      else parse_digits 0 false (String a s')
  | EmptyString => None
  end.

(** [int(v)] *)
Definition py_int (v : pyval) : M Z :=
  match v with
  | PInt n => ret n
  | PStr s => match int_of_str s with Some n => ret n | None => raise ValueError end
  | PNone => raise TypeError
  end.

(** [v.strip()] *)
Definition py_strip (v : pyval) : M string :=
  match v with
  | PStr s => ret (strip s)
  | _ => raise AttributeError
  end.

(** [d[key]] *)
Definition getitem (d : gmap string pyval) (key : string) : M pyval :=
  match d !! key with
  | Some v => ret v
  | None => raise (KeyError key)
  end.

(** [a > b] where [b] may be [None] *)
Definition py_gt (a : Z) (b : option Z) : M bool :=
  match b with
  | Some b => ret (b <? a)
  | None => raise TypeError
  end.

(** ** The heap: lists and report buffers *)

Definition alloc (o : pyobj) : M loc :=
  λ w, let l := fresh (dom (heap w)) in (Ok l, set_heap (<[l := o]> (heap w)) w).

(** [[]] *)
Definition new_list : M loc := alloc (PyList []).
(** [StringIO()] *)
Definition new_StringIO : M loc := alloc (StringIO []).

(** the items of a list object *)
Definition list_items (l : loc) : M (list file_tuple) :=
  λ w, match heap w !! l with
       | Some (PyList items) => (Ok items, w)
       | _ => (Raise TypeError, w)
       end.

(** [l.append(x)] *)
Definition list_append (l : loc) (x : file_tuple) : M unit :=
  λ w, match heap w !! l with
       | Some (PyList items) => (Ok (), set_heap (<[l := PyList (items ++ [x])]> (heap w)) w)
       | _ => (Raise AttributeError, w)
       end.

(** [l[index]] *)
Definition list_getitem (l : loc) (index : nat) : M file_tuple :=
  let* items := list_items l in
  match items !! index with
  | Some x => ret x
  | None => raise IndexError
  end.

(** [io.write(line)] *)
Definition io_write (io : loc) (line : report_line) : M unit :=
  λ w, match heap w !! io with
       | Some (StringIO written) =>
           (Ok (), set_heap (<[io := StringIO (written ++ [line])]> (heap w)) w)
       | _ => (Raise AttributeError, w)
       end.

(** [io.getvalue()] *)
Definition getvalue (io : loc) : M (list report_line) :=
  λ w, match heap w !! io with
       | Some (StringIO written) => (Ok written, w)
       | _ => (Raise AttributeError, w)
       end.

(** [sorted(file_list, key=lambda x: x[1])]: Python's sort is stable, and a
    stable sort is determined by its key; insertion from the right, placing
    an element before the first one whose key is not smaller, is one. *)
Fixpoint insert_by_date (x : file_tuple) (l : list file_tuple) : list file_tuple :=
  match l with
  | [] => [x]
  | y :: l' => if item1 x <=? item1 y then x :: y :: l' else y :: insert_by_date x l'
  end.

Fixpoint sort_by_date (l : list file_tuple) : list file_tuple :=
  match l with
  | [] => []
  | x :: l' => insert_by_date x (sort_by_date l')
  end.

Definition sorted (file_list : loc) : M loc :=
  let* items := list_items file_list in
  alloc (PyList (sort_by_date items)).

(** ** The operating system *)

(** [os.stat(path)] *)
Definition os_stat (path : string) : M file_stat :=
  λ w, match fs_files w !! path with
       | Some st => (Ok st, w)
       | None => (Raise (FileNotFoundError path), w)
       end.

(** [os.remove(path)] *)
Definition os_remove (path : string) : M unit :=
  λ w, match fs_files w !! path with
       | Some _ => (Ok (), set_files (delete path (fs_files w)) w)
       | None => (Raise (FileNotFoundError path), w)
       end.

Definition full_name (dir_name fname : string) : string :=
  dir_name +:+ "/" +:+ fname.

(** [os.walk(top)]: for each directory under [top], its name and the files
    in it.  [fs_walk] records the tree; a file that has been removed is no
    longer listed, and a [top] that is not a directory yields nothing. *)
Definition listing (w : world) (top : string) : list (string * list string) :=
  (λ d, (d.1, filter (λ fname, is_Some (fs_files w !! full_name d.1 fname)) d.2))
    <$> default [] (fs_walk w !! top).

Definition os_walk (top : string) : M (list (string * list string)) :=
  λ w, (Ok (listing w top), w).

(** [os.path.isdir(path)] *)
Definition os_path_isdir (path : string) : M bool :=
  λ w, (Ok (bool_decide (is_Some (fs_walk w !! path))), w).

(** [datetime.now()] *)
Definition datetime_now : M Z := λ w, (Ok (clock w), w).

Definition print (plain : text) : M unit := λ w, (Ok (), emit (Print plain) w).
Definition print_report (content : list report_line) : M unit :=
  λ w, (Ok (), emit (PrintReport content) w).

(** ** maintain.py *)

(** [delete_file] *)
Definition delete_file (filename : string) (mdate : Z) (io_report : loc) : M unit :=
  io_write io_report (filename, mdate) ;;
  os_remove filename.

(** [post_message] *)
Definition post_message (mrkdwn : option text) (plain : text) : M unit :=
  λ w, match SLACK_CHANNEL w with
       | None => print plain w
       | Some channel =>
           (Ok (), emit (ChatPostMessage (SLACK_TOKEN w) channel mrkdwn plain) w)
       end.

(** [upload_file] *)
Definition upload_file (content : list report_line) (title : report_title) : M unit :=
  λ w, (Ok (), emit (FilesUpload (SLACK_TOKEN w) (default ""%string (SLACK_CHANNEL w))
                       content title) w).

(** [if SLACK_CHANNEL is not None: upload_file(...) else: print(...)] *)
Definition ship_report (content : list report_line) (title : report_title) : M unit :=
  λ w, match SLACK_CHANNEL w with
       | Some _ => upload_file content title w
       | None => print_report content w
       end.

(** The loop of [get_under_max_size]:
    [while total_size > max_storage: delete; total_size -= size; index += 1].
    [fuel] bounds the number of tests of the loop condition. *)
Fixpoint while_over (fuel : nat) (sorted_list report : loc) (index : nat)
    (total_size max_storage : Z) : M unit :=
  match fuel with
  | O => raise OutOfFuel
  | S fuel' =>
      if max_storage <? total_size then
        let* x := list_getitem sorted_list index in
        delete_file (item0 x) (item1 x) report ;;
        let* y := list_getitem sorted_list index in
        while_over fuel' sorted_list report (S index) (total_size - item2 y) max_storage
      else ret ()
  end.

(** [get_under_max_size] *)
Definition get_under_max_size (file_list : loc) (total_size max_storage : Z) : M unit :=
  let* sorted_list := sorted file_list in
  let* report := new_StringIO in
  let* items := list_items sorted_list in
  while_over (S (length items)) sorted_list report 0 total_size max_storage ;;
  let* report_output := getvalue report in
  ship_report report_output OverQuotaTitle.

(** [for x in l: body(x)] *)
Fixpoint for_each {A} (l : list A) (body : A → M unit) : M unit :=
  match l with
  | [] => ret ()
  | x :: l' => body x ;; for_each l' body
  end.

(** A folder of the configuration: a JSON object with scalar values. *)
Abbreviation folder_cfg := (gmap string pyval).

(** [validate_attribute] *)
Definition validate_attribute (folder : folder_cfg) (attribute : string)
    (must_have_value : bool) : M unit :=
  if bool_decide (folder !! attribute = None) then
    sys_exit ("'" +:+ attribute +:+ "' attribute missing from configuration")
  else if must_have_value then
    let* v := getitem folder attribute in
    let* s := py_strip v in
    if bool_decide (s = ""%string) then
      sys_exit ("'" +:+ attribute +:+ "' attribute cannot be empty")
    else ret ()
  else ret ().

(** a value used as a path *)
Definition as_path (v : pyval) : M string :=
  match v with
  | PStr s => ret s
  | _ => raise TypeError
  end.

(** [validate_folder] *)
Definition validate_folder (folder : folder_cfg) : M unit :=
  validate_attribute folder "name" true ;;
  validate_attribute folder "upload_path" true ;;
  validate_attribute folder "max_age" true ;;
  validate_attribute folder "max_storage" true ;;
  validate_attribute folder "warn_storage" false ;;
  let* v := getitem folder "upload_path" in
  let* path := as_path v in
  let* isdir := os_path_isdir path in
  if negb isdir then
    sys_exit ("'" +:+ path +:+ "' is not a valid directory for 'upload_path'")
  else ret ().

(** The parsed configuration file: the keys the script reads. *)
Record config := Config {
  cfg_folders : option (list folder_cfg);
  cfg_slack_auth_token : option pyval;
  cfg_slack_channel_id : option pyval
}.

(** [validate_folders] *)
Definition validate_folders (folders : list folder_cfg) : M unit :=
  for_each folders validate_folder.

(** [load_configuration]: [content] is what [config_file] holds, [None] when
    there is no such file. *)
Definition load_configuration (config_file : string) (content : option config) : M config :=
  match content with
  | None => sys_exit ("Cannot find configuration file; looking at '" +:+ config_file +:+ "'")
  | Some config =>
      match cfg_folders config with
      | None => sys_exit ("Cannot find 'folders' in configuration '" +:+ config_file +:+ "'")
      | Some folders => validate_folders folders ;; ret config
      end
  end.

(** [report_header] *)
Definition report_header (folder : folder_cfg) (done_header : bool) : M bool :=
  (if negb done_header then
     let* folder_name := getitem folder "name" in
     post_message (Some (HeaderText true folder_name)) (HeaderText false folder_name)
   else ret ()) ;;
  ret true.

(** [process_folder], lines 80-91: the files of one directory *)
Fixpoint scan_files (dir_name : string) (files : list string) (earliest_date : Z)
    (file_list deleted_files_report : loc) (total_size : Z) : M Z :=
  match files with
  | [] => ret total_size
  | fname :: files' =>
      let full_name := full_name dir_name fname in
      let* file_stat := os_stat full_name in
      let size := st_size file_stat in
      let date := st_mtime file_stat in
      if date <? earliest_date then
        delete_file full_name date deleted_files_report ;;
        scan_files dir_name files' earliest_date file_list deleted_files_report total_size
      else
        list_append file_list (full_name, date, size) ;;
        scan_files dir_name files' earliest_date file_list deleted_files_report
          (total_size + size)
  end.

(** [process_folder], lines 79-91: the directories of the walk *)
Fixpoint scan_walk (walk : list (string * list string)) (earliest_date : Z)
    (file_list deleted_files_report : loc) (total_size : Z) : M Z :=
  match walk with
  | [] => ret total_size
  | (dir_name, files) :: walk' =>
      let* total_size :=
        scan_files dir_name files earliest_date file_list deleted_files_report total_size in
      scan_walk walk' earliest_date file_list deleted_files_report total_size
  end.

(** [process_folder], lines 92-104: the report of the files deleted for
    their age *)
Definition report_old_files (folder : folder_cfg) (days_to_keep : Z)
    (deleted_files_report : loc) (output_header : bool) : M bool :=
  let* report_output := getvalue deleted_files_report in
  if negb (bool_decide (report_output = [])) then
    let* output_header := report_header folder output_header in
    post_message None (AgedOutText days_to_keep) ;;
    ship_report report_output OldFilesTitle ;;
    ret output_header
  else ret output_header.

(** [process_folder], lines 105-117: over the limit, over the warning
    threshold, or neither *)
Definition check_storage (folder : folder_cfg) (output_header : bool) (file_list : loc)
    (total_size max_storage : Z) (warn_storage : option Z) : M unit :=
  if max_storage <? total_size then
    let* output_header := report_header folder output_header in
    let target := match warn_storage with Some ws => ws | None => max_storage end in
    post_message None (OverLimitText (total_size - target)) ;;
    get_under_max_size file_list total_size target
  else
    let* over_warn := py_gt total_size warn_storage in
    if over_warn then
      let* output_header := report_header folder output_header in
      post_message (Some (WarningText true total_size (default 0 warn_storage)))
                   (WarningText false total_size (default 0 warn_storage))
    else ret ().

(** [process_folder] *)
Definition process_folder (folder : folder_cfg) : M unit :=
  let output_header := false in
  let* v := getitem folder "max_age" in
  let* days_to_keep := py_int v in
  let* v := getitem folder "max_storage" in
  let* n := py_int v in
  let max_storage := n * 1024 * 1024 in
  let* warn_storage :=
    (if bool_decide (is_Some (folder !! "warn_storage")) then
       let* v := getitem folder "warn_storage" in
       let* n := py_int v in
       ret (Some (n * 1024 * 1024))
     else ret None) in
  let* now := datetime_now in
  let earliest_date := now - days_to_keep * 86400000000 in
  let total_size := 0 in
  let* file_list := new_list in
  let* deleted_files_report := new_StringIO in
  let* v := getitem folder "upload_path" in
  let* top := as_path v in
  let* walk := os_walk top in
  let* total_size := scan_walk walk earliest_date file_list deleted_files_report total_size in
  let* output_header := report_old_files folder days_to_keep deleted_files_report output_header in
  check_storage folder output_header file_list total_size max_storage warn_storage.

(** [main], lines 201-205 and 206-210: a credential is taken, and counted,
    when its key is there and its value is not blank *)
Definition read_credential (v : option pyval) (set : string → world → world)
    (count : Z) : M Z :=
  match v with
  | Some v =>
      let* value := py_strip v in
      if negb (bool_decide (value = ""%string)) then
        (λ w, (Ok (), set value w)) ;;
        ret (count + 1)
      else ret count
  | None => ret count
  end.

(** [main] *)
Definition main (config_file : string) (content : option config) : M unit :=
  let* config := load_configuration config_file content in
  let* folders :=
    (match cfg_folders config with
     | Some folders => ret folders
     | None => raise (KeyError "folders")
     end) in
  let count := 0 in
  let* count := read_credential (cfg_slack_auth_token config) set_SLACK_TOKEN count in
  let* count := read_credential (cfg_slack_channel_id config) set_SLACK_CHANNEL count in
  if negb (bool_decide (count = 0)) && negb (bool_decide (count = 2)) then
    sys_exit "Slack configuration not set correctly"
  else for_each folders process_folder.


(** * Vocabulary of the properties *)

(** The total of the sizes of a list of files. *)
Definition sum_sizes (l : list file_tuple) : Z := foldr (λ x acc, item2 x + acc) 0 l.

(** The report line of a file. *)
Definition line_of (x : file_tuple) : report_line := (item0 x, item1 x).

(** Oldest first. *)
Definition date_le (x y : file_tuple) : Prop := item1 x ≤ item1 y.

(** The files of one date, used to say that the sort is stable. *)
Definition same_date (d : Z) (x : file_tuple) : Prop := item1 x = d.
#[global] Instance same_date_dec d x : Decision (same_date d x).
Proof. unfold same_date. apply _. Defined.

(** The number of files the eviction loop goes through: it stops at the
    first file before which the running total is within the limit, or at the
    end of the list. *)
Fixpoint evict_count (rest : list file_tuple) (total_size max_storage : Z) : nat :=
  match rest with
  | [] => 0
  | x :: rest' =>
      if max_storage <? total_size
      then S (evict_count rest' (total_size - item2 x) max_storage)
      else 0
  end.

(** The filesystem once the named files are removed. *)
Definition remove_files (names : list string) (fs : gmap string file_stat) :
    gmap string file_stat :=
  foldl (λ fs n, delete n fs) fs names.

(** ** A folder of three files

    Two files of 40 bytes and one of 30 under [/srv/uploads], met in the
    order [a.bin], [b.bin], [old/c.bin]; [b.bin] is the oldest and [a.bin]
    the newest. *)
Definition example_items : list file_tuple :=
  [("/srv/uploads/a.bin"%string, 300, 40);
   ("/srv/uploads/b.bin"%string, 100, 40);
   ("/srv/uploads/old/c.bin"%string, 200, 30)].

Definition example_files : gmap string file_stat :=
  list_to_map ((λ x, (item0 x, FileStat (item1 x) (item2 x))) <$> example_items).

Definition example_walk : gmap string (list (string * list string)) :=
  {[ "/srv/uploads"%string :=
       [("/srv/uploads"%string, ["a.bin"; "b.bin"]%string);
        ("/srv/uploads/old"%string, ["c.bin"%string])] ]}.

(** The world in which the three files have been retained in the list at
    address [1]; nothing printed yet, no Slack channel. *)
Definition example_world : world :=
  World example_files example_walk 1000 {[ 1%positive := PyList example_items ]} None None [].

(** ** The scan, file by file *)

(** The full names the scanner visits, in order. *)
Definition visited_names (walk : list (string * list string)) : list string :=
  mjoin ((λ d : string * list string, full_name d.1 <$> d.2) <$> walk).

(** A file is expired when it was last modified strictly before the cutoff. *)
Definition is_expired (earliest_date : Z) (st : file_stat) : bool :=
  st_mtime st <? earliest_date.

(** The report lines of the expired files among [names], in order. *)
Definition expired_lines (fs : gmap string file_stat) (earliest_date : Z)
    (names : list string) : list report_line :=
  omap (λ n, st ← fs !! n;
             if is_expired earliest_date st then Some (n, st_mtime st) else None) names.

(** The tuples of the other files among [names], in order. *)
Definition retained_items (fs : gmap string file_stat) (earliest_date : Z)
    (names : list string) : list file_tuple :=
  omap (λ n, st ← fs !! n;
             if is_expired earliest_date st then None
             else Some (n, st_mtime st, st_size st)) names.

(** ** Messages *)

(** A message as [post_message] sends it: printed when no channel is set,
    posted to the channel otherwise. *)
Definition msg_event (w : world) (mrkdwn : option text) (plain : text) : event :=
  match SLACK_CHANNEL w with
  | None => Print plain
  | Some channel => ChatPostMessage (SLACK_TOKEN w) channel mrkdwn plain
  end.

(** The header of the report of a folder. *)
Definition header_event (w : world) (folder_name : pyval) : event :=
  msg_event w (Some (HeaderText true folder_name)) (HeaderText false folder_name).

(** The folder a header message names; [None] for any other event. *)
Definition header_name (e : event) : option pyval :=
  match e with
  | Print (HeaderText _ n) => Some n
  | ChatPostMessage _ _ _ (HeaderText _ n) => Some n
  | _ => None
  end.

(** The bytes to free an over-limit message states; [None] for any other
    event. *)
Definition over_limit_bytes (e : event) : option Z :=
  match e with
  | Print (OverLimitText n) => Some n
  | ChatPostMessage _ _ _ (OverLimitText n) => Some n
  | _ => None
  end.

(** The total and the threshold a warning states; [None] for any other
    event. *)
Definition warning_figures (e : event) : option (Z * Z) :=
  match e with
  | Print (WarningText _ t ws) => Some (t, ws)
  | ChatPostMessage _ _ _ (WarningText _ t ws) => Some (t, ws)
  | _ => None
  end.

(** The world after some events. *)
Definition emit_all (es : list event) (w : world) : world :=
  foldl (λ w e, emit e w) w es.

(** [w'] is [w] after events that all satisfy [P]. *)
Definition emits_only (P : event → Prop) (w w' : world) : Prop :=
  ∃ new, output w' = output w ++ new ∧ Forall P new.

(** The scanner's starting point: the three files on disk, an empty list at
    address [1] and an empty report at address [2]. *)
Definition scan_world : world :=
  World example_files example_walk 1000
    {[ 1%positive := PyList []; 2%positive := StringIO [] ]} None None [].

(** The events between [w] and a later world [w']. *)
Definition emitted (w w' : world) : list event :=
  drop (length (output w)) (output w').

(** What a folder may emit: nothing, or the header naming the folder followed
    by at least one other event, none of which is a header. *)
Definition header_first (folder : folder_cfg) (new : list event) : Prop :=
  new = [] ∨
  ∃ name hdr rest,
    new = hdr :: rest ∧
    folder !! "name"%string = Some name ∧ header_name hdr = Some name ∧
    rest ≠ [] ∧ Forall (λ e, header_name e = None) rest.

(** A folder of the configuration, as strings: 30 days, 100 MB at most, a
    warning from 80 MB. *)
Definition example_folder : folder_cfg :=
  list_to_map [("name"%string, PStr "lounge"); ("upload_path"%string, PStr "/srv/uploads");
               ("max_age"%string, PStr "30"); ("max_storage"%string, PStr "100");
               ("warn_storage"%string, PStr "80")].

(** ** Slack credentials *)

(** The value [main] takes from a credential of the configuration: the
    stripped string, unless the key is missing or the string is blank. *)
Definition usable (v : option pyval) : option string :=
  match v with
  | Some (PStr s) => if bool_decide (strip s = ""%string) then None else Some (strip s)
  | _ => None
  end.

(** The world once [main] has set the globals it found. *)
Definition with_credentials (token channel : option string) (w : world) : world :=
  let w := match token with Some t => set_SLACK_TOKEN t w | None => w end in
  match channel with Some c => set_SLACK_CHANNEL c w | None => w end.

(** A world with the upload directory and its three files, nothing else. *)
Definition start_world : world :=
  World example_files example_walk 1000 ∅ None None [].

(** ** Configuration *)

(** The attributes [validate_folder] wants with a value. *)
Definition required_attributes : list string :=
  ["name"; "upload_path"; "max_age"; "max_storage"]%string.

(** An attribute that is there, a string, and not blank. *)
Definition has_value (folder : folder_cfg) (attribute : string) : Prop :=
  ∃ s, folder !! attribute = Some (PStr s) ∧ strip s ≠ ""%string.

(** The integer [int] reads from a value, if any. *)
Definition int_value (v : pyval) : option Z :=
  match v with
  | PInt n => Some n
  | PStr s => int_of_str s
  | PNone => None
  end.

(** What is written to the terminal, as opposed to sent to Slack. *)
Definition is_console (e : event) : Prop :=
  match e with
  | Print _ | PrintReport _ => True
  | _ => False
  end.

(** Between [w] and [w'] the Slack channel is the same, and if there is none,
    everything emitted went to the terminal. *)
Definition console_only (w w' : world) : Prop :=
  SLACK_CHANNEL w' = SLACK_CHANNEL w ∧
  ∃ new, output w' = output w ++ new ∧ (SLACK_CHANNEL w = None → Forall is_console new).

(** Between [w] and [w'] nothing was emitted and the channel is the same. *)
Definition same_io (w w' : world) : Prop :=
  output w' = output w ∧ SLACK_CHANNEL w' = SLACK_CHANNEL w.

(** A folder that keeps nothing older than the run and allows 0 MB, and a
    world in which [b.bin] (date 100) is older than the run (clock 150) and
    the other two files are not. *)
Definition strict_folder : folder_cfg :=
  <["max_age"%string := PStr "0"]>
    (<["max_storage"%string := PStr "0"]>
       (<["warn_storage"%string := PStr "0"]> example_folder)).

Definition later_world : world :=
  World example_files example_walk 150 ∅ None None [].

(** ** A dated folder

    The same three files with dates counted from [datetime.min]: on day
    739000, [a.bin] is 5 days old, [b.bin] 40 days and [old/c.bin] 10. *)
Definition day : Z := 86400000000.

Definition dated_files : gmap string file_stat :=
  list_to_map [("/srv/uploads/a.bin"%string, FileStat (738995 * day) 40);
               ("/srv/uploads/b.bin"%string, FileStat (738960 * day) 40);
               ("/srv/uploads/old/c.bin"%string, FileStat (738990 * day) 30)].

Definition dated_world : world :=
  World dated_files example_walk (739000 * day) ∅ None None [].

(** * Properties *)

(** ** The monad *)

Lemma bind_ok {A B} (m : M A) (k : A → M B) w a w' :
  m w = (Ok a, w') → bind m k w = k a w'.
Proof. intros H. unfold bind. by rewrite H. Qed.

Lemma bind_raise {A B} (m : M A) (k : A → M B) w e w' :
  m w = (Raise e, w') → bind m k w = (Raise e, w').
Proof. intros H. unfold bind. by rewrite H. Qed.

(** ** Sorting by date *)

Lemma sum_sizes_app l1 l2 : sum_sizes (l1 ++ l2) = sum_sizes l1 + sum_sizes l2.
Proof. induction l1 as [|x l1 IH]; simpl; lia. Qed.

Lemma insert_by_date_perm x l : insert_by_date x l ≡ₚ x :: l.
Proof.
  induction l as [|y l IH]; simpl; [done|].
  destruct (item1 x <=? item1 y); [done|].
  rewrite IH. apply Permutation_swap.
Qed.

Lemma sort_by_date_perm l : sort_by_date l ≡ₚ l.
Proof.
  induction l as [|x l IH]; simpl; [done|].
  by rewrite insert_by_date_perm, IH.
Qed.

Lemma sort_by_date_length l : length (sort_by_date l) = length l.
Proof. by rewrite sort_by_date_perm. Qed.

Lemma sum_sizes_perm l1 l2 : l1 ≡ₚ l2 → sum_sizes l1 = sum_sizes l2.
Proof. induction 1; simpl; lia. Qed.

Lemma insert_by_date_sorted x l :
  StronglySorted date_le l → StronglySorted date_le (insert_by_date x l).
Proof.
  induction 1 as [|y l Hl IH Hy]; simpl.
  - repeat constructor.
  - destruct (Z.leb_spec (item1 x) (item1 y)) as [Hxy|Hxy].
    + constructor; [by constructor|].
      constructor; [done|].
      eapply Forall_impl; [exact Hy|]. unfold date_le. intros; lia.
    + constructor; [done|].
      rewrite insert_by_date_perm. constructor; [unfold date_le; lia | done].
Qed.

Lemma sort_by_date_sorted l : StronglySorted date_le (sort_by_date l).
Proof.
  induction l as [|x l IH]; simpl; [constructor|].
  by apply insert_by_date_sorted.
Qed.

Lemma insert_by_date_filter d x l :
  StronglySorted date_le l →
  filter (same_date d) (insert_by_date x l) = filter (same_date d) (x :: l).
Proof.
  induction 1 as [|y l Hl IH Hy]; simpl; [done|].
  destruct (Z.leb_spec (item1 x) (item1 y)) as [Hxy|Hxy]; [done|].
  rewrite !filter_cons in *.
  destruct (decide (same_date d y)) as [Hdy|Hdy]; destruct (decide (same_date d x)) as [Hdx|Hdx];
    unfold same_date in *; try lia; by rewrite IH.
Qed.

Lemma sort_by_date_stable d l :
  filter (same_date d) (sort_by_date l) = filter (same_date d) l.
Proof.
  induction l as [|x l IH]; simpl; [done|].
  rewrite insert_by_date_filter by apply sort_by_date_sorted.
  by rewrite !filter_cons, IH.
Qed.

(** ** Removing files *)

Lemma remove_files_lookup names fs n :
  remove_files names fs !! n = if decide (n ∈ names) then None else fs !! n.
Proof.
  unfold remove_files. revert fs.
  induction names as [|m names IH]; intros fs.
  - case_decide; [set_solver|done].
  - cbn [foldl]. rewrite IH.
    destruct (decide (n = m)) as [->|Hne].
    + rewrite lookup_delete_eq.
      destruct (decide (m ∈ names)), (decide (m ∈ m :: names)); set_solver.
    + rewrite lookup_delete_ne by done.
      destruct (decide (n ∈ names)), (decide (n ∈ m :: names)); set_solver.
Qed.

(** ** The eviction loop *)

Lemma evict_count_le rest total_size max_storage :
  (evict_count rest total_size max_storage ≤ length rest)%nat.
Proof.
  revert total_size. induction rest as [|x rest IH]; intros total_size; simpl; [lia|].
  destruct (max_storage <? total_size); [|lia]. specialize (IH (total_size - item2 x)). lia.
Qed.

(** Before each of the files it goes through, the loop found the total over
    the limit. *)
Lemma evict_count_over rest total_size max_storage j :
  (j < evict_count rest total_size max_storage)%nat →
  max_storage < total_size - sum_sizes (take j rest).
Proof.
  revert total_size j. induction rest as [|x rest IH]; intros total_size j; simpl; [lia|].
  destruct (Z.ltb_spec max_storage total_size) as [Hlt|Hge]; [|lia].
  intros Hj. destruct j as [|j]; simpl; [lia|].
  specialize (IH (total_size - item2 x) j). lia.
Qed.

(** Where it stops, the total is within the limit, unless the list is used up. *)
Lemma evict_count_stop rest total_size max_storage :
  let k := evict_count rest total_size max_storage in
  total_size - sum_sizes (take k rest) ≤ max_storage ∨
  (k = length rest ∧ max_storage < total_size - sum_sizes rest).
Proof.
  revert total_size. induction rest as [|x rest IH]; intros total_size; simpl.
  - lia.
  - destruct (Z.ltb_spec max_storage total_size) as [Hlt|Hge]; simpl; [|lia].
    destruct (IH (total_size - item2 x)) as [H|[H1 H2]]; [left; lia|right; lia].
Qed.

Lemma world_eq w1 w2 :
  fs_files w1 = fs_files w2 → fs_walk w1 = fs_walk w2 → clock w1 = clock w2 →
  heap w1 = heap w2 → SLACK_TOKEN w1 = SLACK_TOKEN w2 →
  SLACK_CHANNEL w1 = SLACK_CHANNEL w2 → output w1 = output w2 → w1 = w2.
Proof. destruct w1, w2; simpl; congruence. Qed.

(** The loop on a list whose files are there, each once: it removes the
    files it goes through, writes their lines, and fails only past the end
    of the list. *)
Lemma while_over_run fuel sl rp : ∀ index total_size max_storage w items lines,
  heap w !! sl = Some (PyList items) →
  heap w !! rp = Some (StringIO lines) →
  (length items - index < fuel)%nat →
  let del := take (evict_count (drop index items) total_size max_storage) (drop index items) in
  (∀ x, x ∈ del → is_Some (fs_files w !! item0 x)) →
  NoDup (item0 <$> del) →
  while_over fuel sl rp index total_size max_storage w =
    ((if decide (total_size - sum_sizes del ≤ max_storage) then Ok () else Raise IndexError),
     set_files (remove_files (item0 <$> del) (fs_files w))
       (set_heap (<[rp := StringIO (lines ++ (line_of <$> del))]> (heap w)) w)).
Proof.
  induction fuel as [|fuel IH]; intros index total_size max_storage w items lines Hsl Hrp Hfuel;
    [lia|].
  assert (Hne : sl ≠ rp) by (intros ->; congruence).
  simpl. destruct (Z.ltb_spec max_storage total_size) as [Hlt|Hge].
  - destruct (items !! index) as [x|] eqn:Hx.
    + rewrite (drop_S _ _ _ Hx). simpl.
      destruct (Z.ltb_spec max_storage total_size) as [_|?]; [|lia].
      simpl. intros Hin Hnd. apply NoDup_cons in Hnd as [Hx_notin Hnd].
      destruct (Hin x) as [st Hst]; [set_solver|].
      set (w1 := set_files (delete (item0 x) (fs_files w))
                   (set_heap (<[rp := StringIO (lines ++ [line_of x])]> (heap w)) w)).
      assert (Hget : ∀ w', heap w' !! sl = Some (PyList items) →
                list_getitem sl index w' = (Ok x, w')).
      { intros w' Hw'. unfold list_getitem, bind, list_items. rewrite Hw'. by rewrite Hx. }
      assert (Hdel : delete_file (item0 x) (item1 x) rp w = (Ok (), w1)).
      { unfold delete_file, bind, io_write, os_remove. rewrite Hrp. simpl. by rewrite Hst. }
      rewrite (bind_ok _ _ _ _ _ (Hget w Hsl)).
      rewrite (bind_ok _ _ _ _ _ Hdel).
      assert (Hsl1 : heap w1 !! sl = Some (PyList items)).
      { simpl. by rewrite lookup_insert_ne. }
      rewrite (bind_ok _ _ _ _ _ (Hget w1 Hsl1)).
      rewrite (IH (S index) (total_size - item2 x) max_storage w1 items (lines ++ [line_of x]));
        [| done | simpl; by rewrite lookup_insert_eq
         | apply lookup_lt_Some in Hx; lia | |done].
      * f_equal.
        -- repeat case_decide; try done; lia.
        -- apply world_eq; simpl; try done.
           rewrite insert_insert_eq. by rewrite <- app_assoc.
      * intros y Hy. simpl. rewrite lookup_delete_ne; [apply Hin; set_solver|].
        intros Heq. apply Hx_notin. rewrite Heq. apply list_elem_of_fmap. eauto.
    + apply lookup_ge_None in Hx. rewrite drop_ge by lia. simpl. intros _ _.
      unfold bind, list_getitem, bind, list_items. rewrite Hsl.
      rewrite (proj2 (lookup_ge_None _ _) Hx). unfold raise.
      f_equal.
      * case_decide; [lia|done].
      * apply world_eq; simpl; try done.
        rewrite app_nil_r. by rewrite insert_id.
  - assert (Hk : evict_count (drop index items) total_size max_storage = 0%nat).
    { destruct (drop index items); simpl; [done|].
      destruct (Z.ltb_spec max_storage total_size); [lia|done]. }
    rewrite Hk. simpl. intros _ _. unfold ret. f_equal.
    + case_decide; [done|lia].
    + apply world_eq; simpl; try done.
      rewrite app_nil_r. by rewrite insert_id.
Qed.

(** ** What a computation leaves alone *)

Section preserves.
Context (R : world → world → Prop) `{!Reflexive R, !Transitive R}.

Definition preserves {A} (m : M A) : Prop := ∀ w, R w (m w).2.

Lemma preserves_ret {A} (a : A) : preserves (ret a).
Proof. intros w. done. Qed.

Lemma preserves_raise {A} e : preserves (raise (A := A) e).
Proof. intros w. done. Qed.

Lemma preserves_bind {A B} (m : M A) (k : A → M B) :
  preserves m → (∀ a, preserves (k a)) → preserves (bind m k).
Proof.
  intros Hm Hk w. unfold bind. specialize (Hm w).
  destruct (m w) as [[a|e] w']; simpl in *; [|done].
  etrans; [exact Hm | apply Hk].
Qed.

Lemma preserves_for_each {A} (l : list A) (body : A → M unit) :
  (∀ x, preserves (body x)) → preserves (for_each l body).
Proof.
  intros Hb. induction l as [|x l IH]; simpl.
  - apply preserves_ret.
  - apply preserves_bind; [apply Hb | intros _; apply IH].
Qed.
End preserves.

(** Nothing is printed or posted. *)
Definition same_output (w w' : world) : Prop := output w' = output w.
(** No object of the heap changes, except the one at [rp]. *)
Definition same_heap_but (rp : loc) (w w' : world) : Prop :=
  ∀ l, l ≠ rp → heap w' !! l = heap w !! l.
(** No object that exists changes (new ones may appear). *)
Definition heap_extends (w w' : world) : Prop :=
  ∀ l, l ∈ dom (heap w) → heap w' !! l = heap w !! l.

#[local] Instance same_output_refl : Reflexive same_output.
Proof. by intros w. Qed.
#[local] Instance same_output_trans : Transitive same_output.
Proof. unfold same_output. intros w1 w2 w3 H1 H2. congruence. Qed.
#[local] Instance same_heap_but_refl rp : Reflexive (same_heap_but rp).
Proof. by intros w l. Qed.
#[local] Instance same_heap_but_trans rp : Transitive (same_heap_but rp).
Proof. intros w1 w2 w3 H1 H2 l Hl. rewrite H2, H1; done. Qed.
#[local] Instance heap_extends_refl : Reflexive heap_extends.
Proof. by intros w l. Qed.
#[local] Instance heap_extends_trans : Transitive heap_extends.
Proof.
  intros w1 w2 w3 H1 H2 l Hl. rewrite H2, H1; [done..|].
  apply elem_of_dom. rewrite H1 by done. by apply elem_of_dom.
Qed.

Ltac step_preserves :=
  first [ apply preserves_ret | apply preserves_raise
        | apply preserves_bind; [try apply _; try apply _ | intros ?]
        | progress unfold sys_exit ].

Lemma list_items_same l : ∀ w, (list_items l w).2 = w.
Proof. intros w. unfold list_items. by repeat case_match. Qed.

Lemma list_getitem_same l i : ∀ w, (list_getitem l i w).2 = w.
Proof.
  intros w. unfold list_getitem, bind, list_items, ret, raise.
  destruct (heap w !! l) as [[items|]|]; simpl; try done. by destruct (items !! i).
Qed.

Lemma delete_file_output filename mdate io : preserves same_output (delete_file filename mdate io).
Proof.
  intros w. unfold delete_file, bind, io_write, os_remove, same_output.
  repeat (case_match; simplify_eq/=; try done).
Qed.

Lemma delete_file_heap filename mdate io :
  preserves (same_heap_but io) (delete_file filename mdate io).
Proof.
  intros w l Hl. unfold delete_file, bind, io_write, os_remove.
  repeat (case_match; simplify_eq/=; try done); rewrite ?lookup_insert_ne by done; done.
Qed.

Section while_over_preserves.
Context (R : world → world → Prop) `{!Reflexive R, !Transitive R}.
Context (rp : loc).
Hypothesis delete_file_R : ∀ filename mdate, preserves R (delete_file filename mdate rp).

Lemma while_over_preserves fuel sl : ∀ index total_size max_storage,
  preserves R (while_over fuel sl rp index total_size max_storage).
Proof using All.
  induction fuel as [|fuel IH]; intros index total_size max_storage; simpl.
  - by apply preserves_raise.
  - destruct (max_storage <? total_size); [|by apply preserves_ret].
    assert (Hget : preserves R (list_getitem sl index)).
    { intros w. by rewrite list_getitem_same. }
    apply preserves_bind; [done..|intros x].
    apply preserves_bind; [done..|intros _].
    apply preserves_bind; [done..|intros y]. apply IH.
Qed.
End while_over_preserves.

Lemma bind_post {A B} (m : M A) (k : A → M B) w (Q : result B * world → Prop) :
  (∀ e w', m w = (Raise e, w') → Q (Raise e, w')) →
  (∀ a w', m w = (Ok a, w') → Q (k a w')) →
  Q (bind m k w).
Proof. intros He Ha. unfold bind. destruct (m w) as [[a|e] w']; eauto. Qed.

Lemma bind_cong {A B} (m : M A) (k1 k2 : A → M B) w :
  (∀ a w', m w = (Ok a, w') → k1 a w' = k2 a w') → bind m k1 w = bind m k2 w.
Proof. intros H. unfold bind. destruct (m w) as [[a|e] w']; eauto. Qed.

Lemma list_getitem_eq l index w items :
  heap w !! l = Some (PyList items) →
  list_getitem l index w
  = (match items !! index with Some x => Ok x | None => Raise IndexError end, w).
Proof.
  intros Hl. unfold list_getitem, bind, list_items. rewrite Hl. by destruct (items !! index).
Qed.

Lemma delete_file_raises filename mdate io w e w' :
  delete_file filename mdate io w = (Raise e, w') →
  e = AttributeError ∨ e = FileNotFoundError filename.
Proof.
  unfold delete_file, bind, io_write, os_remove. intros H.
  repeat (case_match; simplify_eq/=; eauto).
Qed.

(** A list stays what it is while a file is deleted and its line written. *)
Lemma delete_file_keeps_list filename mdate io w r w' sl items :
  delete_file filename mdate io w = (r, w') →
  heap w !! sl = Some (PyList items) → heap w' !! sl = Some (PyList items).
Proof.
  intros Hdel Hsl. destruct (decide (sl = io)) as [->|Hne].
  - unfold delete_file, bind, io_write in Hdel. rewrite Hsl in Hdel. by simplify_eq/=.
  - pose proof (delete_file_heap filename mdate io w sl Hne) as H.
    rewrite Hdel in H. simpl in H. by rewrite H.
Qed.

(** The loop always comes to an end: on a list of [n] items, from [index], it
    tests its condition at most [n - index + 1] times. *)
Lemma while_over_terminates fuel sl rp : ∀ index total_size max_storage w items,
  heap w !! sl = Some (PyList items) →
  (length items - index < fuel)%nat →
  (while_over fuel sl rp index total_size max_storage w).1 ≠ Raise OutOfFuel.
Proof.
  induction fuel as [|fuel IH]; intros index total_size max_storage w items Hsl Hfuel; [lia|].
  simpl. destruct (max_storage <? total_size); [|done].
  apply (bind_post _ _ _ (λ r, r.1 ≠ Raise OutOfFuel)); rewrite (list_getitem_eq _ _ _ _ Hsl).
  { intros e w' He. destruct (items !! index); by simplify_eq/=. }
  intros x w' Hx. destruct (items !! index) eqn:Hix; simplify_eq/=.
  apply (bind_post _ _ _ (λ r, r.1 ≠ Raise OutOfFuel)).
  { intros e w1 Hdel. by destruct (delete_file_raises _ _ _ _ _ _ Hdel) as [-> | ->]. }
  intros [] w1 Hdel. pose proof (delete_file_keeps_list _ _ _ _ _ _ _ _ Hdel Hsl) as Hsl1.
  apply (bind_post _ _ _ (λ r, r.1 ≠ Raise OutOfFuel)); rewrite (list_getitem_eq _ _ _ _ Hsl1), Hix.
  { intros e w2 He. by simplify_eq/=. }
  intros y w2 Hy. simplify_eq/=.
  apply (IH _ _ _ _ items); [done|]. apply lookup_lt_Some in Hix. lia.
Qed.

(** More fuel than that changes nothing. *)
Lemma while_over_fuel fuel1 fuel2 sl rp : ∀ index total_size max_storage w items,
  heap w !! sl = Some (PyList items) →
  (length items - index < fuel1)%nat → (length items - index < fuel2)%nat →
  while_over fuel1 sl rp index total_size max_storage w
  = while_over fuel2 sl rp index total_size max_storage w.
Proof.
  revert fuel2. induction fuel1 as [|fuel1 IH]; intros [|fuel2] index total_size max_storage w
    items Hsl Hfuel1 Hfuel2; [lia..|].
  simpl. destruct (max_storage <? total_size); [|done].
  apply bind_cong. intros x w' Hx. rewrite (list_getitem_eq _ _ _ _ Hsl) in Hx.
  destruct (items !! index) eqn:Hix; simplify_eq/=.
  apply bind_cong. intros [] w1 Hdel.
  pose proof (delete_file_keeps_list _ _ _ _ _ _ _ _ Hdel Hsl) as Hsl1.
  apply bind_cong. intros y w2 Hy. rewrite (list_getitem_eq _ _ _ _ Hsl1), Hix in Hy.
  simplify_eq/=.
  apply (IH _ _ _ _ _ items); [done| |]; apply lookup_lt_Some in Hix; lia.
Qed.

(** ** [get_under_max_size] *)

(** The report as it is shipped: uploaded when a channel is set, printed
    otherwise. *)
Definition report_event (w : world) (content : list report_line) (title : report_title) :
    event :=
  match SLACK_CHANNEL w with
  | Some channel => FilesUpload (SLACK_TOKEN w) channel content title
  | None => PrintReport content
  end.

Lemma ship_report_eq content title w :
  ship_report content title w = (Ok (), emit (report_event w content title) w).
Proof. unfold ship_report, report_event, upload_file, print_report. by destruct (SLACK_CHANNEL w). Qed.

(** The whole function on a list whose files are there, each once. *)
Lemma get_under_max_size_run file_list total_size max_storage w items :
  heap w !! file_list = Some (PyList items) →
  let sorted_items := sort_by_date items in
  let del := take (evict_count sorted_items total_size max_storage) sorted_items in
  (∀ x, x ∈ del → is_Some (fs_files w !! item0 x)) →
  NoDup (item0 <$> del) →
  let sl := fresh (dom (heap w)) in
  let rp := fresh (dom (<[sl := PyList sorted_items]> (heap w))) in
  let w' := set_files (remove_files (item0 <$> del) (fs_files w))
              (set_heap (<[rp := StringIO (line_of <$> del)]>
                           (<[sl := PyList sorted_items]> (heap w))) w) in
  get_under_max_size file_list total_size max_storage w =
    if decide (total_size - sum_sizes del ≤ max_storage)
    then (Ok (), emit (report_event w (line_of <$> del) OverQuotaTitle) w')
    else (Raise IndexError, w').
Proof.
  intros Hfl sorted_items del Hin Hnd sl rp w'.
  assert (Hsl_fresh : heap w !! sl = None).
  { apply not_elem_of_dom. apply is_fresh. }
  assert (Hrp_fresh : (<[sl := PyList sorted_items]> (heap w)) !! rp = None).
  { apply not_elem_of_dom. apply is_fresh. }
  assert (Hne : rp ≠ sl).
  { intros Heq. rewrite Heq, lookup_insert_eq in Hrp_fresh. done. }
  unfold get_under_max_size.
  erewrite bind_ok; [|unfold sorted, bind, list_items, alloc; rewrite Hfl; reflexivity].
  erewrite bind_ok; [|reflexivity].
  fold sl sorted_items. simpl heap. fold rp.
  set (w2 := set_heap _ (set_heap _ w)).
  assert (Hsl2 : heap w2 !! sl = Some (PyList sorted_items)).
  { simpl. rewrite lookup_insert_ne by done. by rewrite lookup_insert_eq. }
  assert (Hrp2 : heap w2 !! rp = Some (StringIO [])).
  { simpl. by rewrite lookup_insert_eq. }
  erewrite bind_ok; [|unfold list_items; rewrite Hsl2; reflexivity].
  unfold bind at 1.
  rewrite (while_over_run _ _ _ 0%nat _ _ _ _ _ Hsl2 Hrp2); [|lia|exact Hin|exact Hnd].
  rewrite drop_0. fold del. simpl app.
  assert (Hw' : set_files (remove_files (item0 <$> del) (fs_files w2))
                  (set_heap (<[rp := StringIO (line_of <$> del)]> (heap w2)) w2) = w').
  { apply world_eq; simpl; try done. by rewrite insert_insert_eq. }
  rewrite Hw'.
  case_decide; [|done].
  unfold bind, getvalue. subst w'. simpl. rewrite lookup_insert_eq.
  rewrite ship_report_eq. done.
Qed.

(** A prefix of the sorted list is made of files of the list, each once. *)
Lemma sorted_prefix_elem k items x :
  x ∈ take k (sort_by_date items) → x ∈ items.
Proof.
  intros Hx. apply subseteq_take in Hx. by rewrite sort_by_date_perm in Hx.
Qed.

Lemma sorted_prefix_NoDup k items :
  NoDup (item0 <$> items) → NoDup (item0 <$> take k (sort_by_date items)).
Proof.
  intros Hnd. rewrite fmap_take.
  apply (sublist_NoDup _ (item0 <$> sort_by_date items)); [|apply sublist_take].
  by rewrite sort_by_date_perm.
Qed.

Lemma sum_sizes_take_drop k l : sum_sizes (drop k l) = sum_sizes l - sum_sizes (take k l).
Proof. rewrite <- (take_drop k l) at 2. rewrite sum_sizes_app. lia. Qed.

(** C1. When [get_under_max_size] is given the retained files (a list
    [items] of files that are on disk, each once), their total size and a
    target with [0 <= target < total], it returns normally, having removed
    the first [k] files of [sort_by_date items] and shipped their report.
    That list is the retained files oldest first: a rearrangement of
    [items], ascending in date, the files of one date in the order they were
    met.  The sizes of the files that remain add up to at most the target;
    and no shorter prefix gets there: after any [j < k] removals the remaining
    total is still over the target. *)
Theorem get_under_max_size_minimal_prefix file_list items total_size max_storage w :
  heap w !! file_list = Some (PyList items) →
  (∀ x, x ∈ items → is_Some (fs_files w !! item0 x)) →
  NoDup (item0 <$> items) →
  total_size = sum_sizes items →
  0 ≤ max_storage < total_size →
  ∃ (k : nat) (w' : world),
    get_under_max_size file_list total_size max_storage w = (Ok (), w') ∧
    (k ≤ length items)%nat ∧
    sort_by_date items ≡ₚ items ∧
    StronglySorted date_le (sort_by_date items) ∧
    (∀ d, filter (same_date d) (sort_by_date items) = filter (same_date d) items) ∧
    fs_files w' = remove_files (item0 <$> take k (sort_by_date items)) (fs_files w) ∧
    output w' = output w ++
      [report_event w (line_of <$> take k (sort_by_date items)) OverQuotaTitle] ∧
    sum_sizes (drop k (sort_by_date items))
      = total_size - sum_sizes (take k (sort_by_date items)) ∧
    sum_sizes (drop k (sort_by_date items)) ≤ max_storage ∧
    ∀ j, (j < k)%nat → max_storage < sum_sizes (drop j (sort_by_date items)).
Proof.
  intros Hfl Hin Hnd Htotal Hmax.
  set (srt := sort_by_date items).
  set (k := evict_count srt total_size max_storage).
  assert (Hsum : sum_sizes srt = total_size).
  { subst srt. by rewrite (sum_sizes_perm _ _ (sort_by_date_perm items)). }
  pose proof (get_under_max_size_run file_list total_size max_storage w items Hfl) as Hrun.
  cbv zeta in Hrun. fold srt k in Hrun.
  specialize (Hrun (λ x Hx, Hin x (sorted_prefix_elem _ _ _ Hx)) (sorted_prefix_NoDup _ _ Hnd)).
  destruct (evict_count_stop srt total_size max_storage) as [Hstop|[_ Hover]];
    fold k in Hstop || idtac; [|lia].
  rewrite decide_True in Hrun by done.
  eexists k, _. split; [exact Hrun|].
  split; [subst k srt; rewrite <- (sort_by_date_length items); apply evict_count_le|].
  split; [apply sort_by_date_perm|]. split; [apply sort_by_date_sorted|].
  split; [intros d; apply sort_by_date_stable|].
  split; [done|]. split; [done|].
  rewrite !sum_sizes_take_drop, Hsum. split; [done|]. split; [lia|].
  intros j Hj. rewrite sum_sizes_take_drop, Hsum.
  by apply evict_count_over.
Qed.

Lemma example_items_on_disk :
  ∀ x, x ∈ example_items → is_Some (fs_files example_world !! item0 x).
Proof.
  apply Forall_forall.
  repeat first [apply Forall_nil_2 | apply Forall_cons_2; [vm_compute; eauto|]].
Qed.

Lemma example_items_NoDup : NoDup (item0 <$> example_items).
Proof. apply (bool_decide_unpack _). by vm_compute. Qed.

Lemma get_under_max_size_minimal_prefix_witness :
  ∃ (k : nat) (w' : world),
    get_under_max_size 1%positive 110 80 example_world = (Ok (), w') ∧
    (k ≤ length example_items)%nat ∧
    sort_by_date example_items ≡ₚ example_items ∧
    StronglySorted date_le (sort_by_date example_items) ∧
    (∀ d, filter (same_date d) (sort_by_date example_items)
          = filter (same_date d) example_items) ∧
    fs_files w'
      = remove_files (item0 <$> take k (sort_by_date example_items)) (fs_files example_world) ∧
    output w' = output example_world ++
      [report_event example_world (line_of <$> take k (sort_by_date example_items))
         OverQuotaTitle] ∧
    sum_sizes (drop k (sort_by_date example_items))
      = 110 - sum_sizes (take k (sort_by_date example_items)) ∧
    sum_sizes (drop k (sort_by_date example_items)) ≤ 80 ∧
    ∀ j, (j < k)%nat → 80 < sum_sizes (drop j (sort_by_date example_items)).
Proof.
  apply (get_under_max_size_minimal_prefix 1%positive example_items 110 80 example_world).
  - reflexivity.
  - exact example_items_on_disk.
  - exact example_items_NoDup.
  - reflexivity.
  - lia.
Defined.

(** The scenario of the specification: 110 bytes retained and a target of
    80; the oldest file goes and 70 bytes remain. *)
Example get_under_max_size_scenario :
  let r := get_under_max_size 1%positive 110 80 example_world in
  r.1 = Ok () ∧
  output r.2 = [PrintReport [("/srv/uploads/b.bin"%string, 100)]] ∧
  fs_files r.2 = delete "/srv/uploads/b.bin"%string example_files.
Proof. by vm_compute. Qed.

(** ** Oldest first *)

(** Whatever the total and the target, the files [get_under_max_size]
    removes are a prefix of the sorted list. *)
Lemma get_under_max_size_removes_prefix file_list items total_size max_storage w :
  heap w !! file_list = Some (PyList items) →
  (∀ x, x ∈ items → is_Some (fs_files w !! item0 x)) →
  NoDup (item0 <$> items) →
  ∃ k : nat,
    fs_files (get_under_max_size file_list total_size max_storage w).2
    = remove_files (item0 <$> take k (sort_by_date items)) (fs_files w).
Proof.
  intros Hfl Hin Hnd.
  pose proof (get_under_max_size_run file_list total_size max_storage w items Hfl) as Hrun.
  cbv zeta in Hrun.
  specialize (Hrun (λ x Hx, Hin x (sorted_prefix_elem _ _ _ Hx)) (sorted_prefix_NoDup _ _ Hnd)).
  exists (evict_count (sort_by_date items) total_size max_storage).
  rewrite Hrun. by case_decide.
Qed.

(** C5. On the retained files (a list of files that are on disk, each once),
    whatever the total and the target: the files [get_under_max_size] removes
    are the first [k] of the list sorted by date, a sort that is a
    rearrangement of the list, ascending in date, and stable (the files of
    one date keep the order they were met in); so if a file [b] is removed,
    every file [a] of the list that is strictly older is removed too. *)
Theorem eviction_oldest_first file_list items total_size max_storage w :
  heap w !! file_list = Some (PyList items) →
  (∀ x, x ∈ items → is_Some (fs_files w !! item0 x)) →
  NoDup (item0 <$> items) →
  let w' := (get_under_max_size file_list total_size max_storage w).2 in
  (∃ k : nat, fs_files w' = remove_files (item0 <$> take k (sort_by_date items)) (fs_files w)) ∧
  sort_by_date items ≡ₚ items ∧
  StronglySorted date_le (sort_by_date items) ∧
  (∀ d, filter (same_date d) (sort_by_date items) = filter (same_date d) items) ∧
  (∀ a b, a ∈ items → b ∈ items → item1 a < item1 b →
     fs_files w' !! item0 b = None → fs_files w' !! item0 a = None).
Proof.
  intros Hfl Hin Hnd w'.
  destruct (get_under_max_size_removes_prefix file_list items total_size max_storage w
              Hfl Hin Hnd) as [k Hk].
  fold w' in Hk.
  split; [by exists k|]. split; [apply sort_by_date_perm|].
  split; [apply sort_by_date_sorted|]. split; [intros d; apply sort_by_date_stable|].
  intros a b Ha Hb Hab Hgone.
  rewrite Hk, remove_files_lookup in Hgone |- *.
  destruct (decide (item0 b ∈ item0 <$> take k (sort_by_date items))) as [Hbin|Hbout];
    [|destruct (Hin b Hb) as [st Hst]; congruence].
  apply list_elem_of_fmap in Hbin as (b' & Heq & Hb').
  assert (b' = b) as ->.
  { pose proof (sorted_prefix_elem _ _ _ Hb') as Hb'items.
    destruct (list_elem_of_lookup_1 _ _ Hb'items) as [i Hi].
    destruct (list_elem_of_lookup_1 _ _ Hb) as [j Hj].
    assert (i = j) as ->; [|congruence].
    eapply NoDup_lookup; [exact Hnd| |]; rewrite list_lookup_fmap.
    + by rewrite Hi.
    + rewrite Hj. simpl. by rewrite Heq. }
  assert (Ha' : a ∈ take k (sort_by_date items) ++ drop k (sort_by_date items)).
  { rewrite take_drop. by rewrite sort_by_date_perm. }
  apply elem_of_app in Ha' as [Ha'|Ha'].
  - rewrite decide_True; [done|]. apply list_elem_of_fmap. eauto.
  - pose proof (sort_by_date_sorted items) as Hsorted.
    rewrite <- (take_drop k (sort_by_date items)) in Hsorted.
    pose proof (StronglySorted_app_1_elem_of _ _ _ _ _ Hsorted Hb' Ha') as Hle.
    unfold date_le in Hle. lia.
Qed.

Lemma eviction_oldest_first_witness :
  let w' := (get_under_max_size 1%positive 110 80 example_world).2 in
  (∃ k : nat, fs_files w'
     = remove_files (item0 <$> take k (sort_by_date example_items)) (fs_files example_world)) ∧
  sort_by_date example_items ≡ₚ example_items ∧
  StronglySorted date_le (sort_by_date example_items) ∧
  (∀ d, filter (same_date d) (sort_by_date example_items)
        = filter (same_date d) example_items) ∧
  (∀ a b, a ∈ example_items → b ∈ example_items → item1 a < item1 b →
     fs_files w' !! item0 b = None → fs_files w' !! item0 a = None).
Proof.
  apply (eviction_oldest_first 1%positive example_items 110 80 example_world).
  - reflexivity.
  - exact example_items_on_disk.
  - exact example_items_NoDup.
Defined.

(** Files of one date come out in the order they went in. *)
Example sort_by_date_ties :
  sort_by_date [("x"%string, 5, 1); ("y"%string, 3, 1); ("z"%string, 5, 2); ("t"%string, 3, 2)]
  = [("y"%string, 3, 1); ("t"%string, 3, 2); ("x"%string, 5, 1); ("z"%string, 5, 2)].
Proof. reflexivity. Qed.

(** ** The input list is left alone *)

Lemma alloc_extends o : preserves heap_extends (alloc o).
Proof.
  intros w l Hl. unfold alloc. simpl. rewrite lookup_insert_ne; [done|].
  intros <-. by apply is_fresh in Hl.
Qed.

Lemma same_heap_but_fresh rp w w1 w' :
  heap_extends w w1 → rp ∉ dom (heap w) → same_heap_but rp w1 w' → heap_extends w w'.
Proof.
  intros H1 Hrp H2 l Hl. rewrite H2, H1; [done..|]. intros ->. done.
Qed.

Lemma getvalue_same io : ∀ w, (getvalue io w).2 = w.
Proof. intros w. unfold getvalue. by destruct (heap w !! io) as [[]|]. Qed.

Lemma ship_report_heap content title w : heap (ship_report content title w).2 = heap w.
Proof. by rewrite ship_report_eq. Qed.

(** C10. [get_under_max_size] does not change the list it is given, nor any
    other object its caller holds: whatever the arguments and however the call
    ends, every object that was in the heap before the call is there after it
    with the same content (the sort works on a list of its own, and the only
    object written to is the report buffer the function creates). *)
Theorem get_under_max_size_keeps_its_input file_list total_size max_storage w :
  let w' := (get_under_max_size file_list total_size max_storage w).2 in
  heap w' !! file_list = heap w !! file_list ∧
  (∀ l, l ∈ dom (heap w) → heap w' !! l = heap w !! l).
Proof.
  intros w'.
  assert (Hext : heap_extends w w').
  { subst w'. unfold get_under_max_size.
    unfold bind at 1. unfold sorted at 1. unfold bind at 1.
    destruct (list_items file_list w) as [[items|e] w0] eqn:Hitems;
      pose proof (list_items_same file_list w) as Hsame; rewrite Hitems in Hsame;
      simpl in Hsame; subst w0; [|done].
    pose proof (alloc_extends (PyList (sort_by_date items)) w) as H1.
    destruct (alloc (PyList (sort_by_date items)) w) as [[sl|e] w1] eqn:Hal1; [|done].
    simpl in H1. unfold bind at 1.
    pose proof (alloc_extends (StringIO []) w1) as H2.
    assert (Hrp : (alloc (StringIO []) w1).1 = Ok (fresh (dom (heap w1)))) by done.
    unfold new_StringIO.
    destruct (alloc (StringIO []) w1) as [[rp|e] w2] eqn:Hal2; [|done].
    simpl in H2, Hrp. simplify_eq.
    eapply same_heap_but_fresh; [by etrans| |].
    - intros Hin. apply (is_fresh (dom (heap w1))). apply elem_of_dom.
      rewrite H1 by done. by apply elem_of_dom.
    - set (rp := fresh (dom (heap w1))).
      apply (preserves_bind (same_heap_but rp)).
      { intros w3. by rewrite list_items_same. }
      intros items'. apply (preserves_bind (same_heap_but rp)).
      { apply while_over_preserves; [apply _..|]. intros. apply delete_file_heap. }
      intros _. apply (preserves_bind (same_heap_but rp)).
      { intros w3. by rewrite getvalue_same. }
      intros out w3 l _. by rewrite ship_report_heap. }
  split; [|exact Hext].
  destruct (decide (file_list ∈ dom (heap w))) as [Hin|Hout]; [by apply Hext|].
  subst w'. unfold get_under_max_size, bind, sorted, bind, list_items.
  apply not_elem_of_dom in Hout. by rewrite Hout.
Qed.

(** ** The loop comes to an end *)

(** In any world and on any arguments, the steps [get_under_max_size] allows
    its loop are enough. *)
Lemma get_under_max_size_terminates file_list total_size max_storage w :
  (get_under_max_size file_list total_size max_storage w).1 ≠ Raise OutOfFuel.
Proof.
  unfold get_under_max_size.
  apply (bind_post _ _ _ (λ r, r.1 ≠ Raise OutOfFuel)).
  { unfold sorted, bind, list_items, alloc. intros e w' H.
    repeat (case_match; simplify_eq/=; try done). }
  intros sl w1 Hsorted.
  assert (∃ items, heap w1 !! sl = Some (PyList items)) as [items Hsl].
  { unfold sorted, bind, list_items, alloc in Hsorted.
    repeat (case_match; simplify_eq/=; try done).
    eexists. by rewrite lookup_insert_eq. }
  apply (bind_post _ _ _ (λ r, r.1 ≠ Raise OutOfFuel)); [done|].
  intros rp0 w2 Hrp. unfold new_StringIO, alloc in Hrp. injection Hrp as <- <-.
  set (rp := fresh (dom (heap w1))).
  set (w2 := set_heap _ w1).
  assert (Hsl2 : heap w2 !! sl = Some (PyList items)).
  { subst w2. simpl. rewrite lookup_insert_ne; [done|]. intros Heq.
    apply (is_fresh (dom (heap w1))). fold rp. rewrite Heq. apply elem_of_dom. eauto. }
  assert (Hitems : list_items sl w2 = (Ok items, w2)).
  { unfold list_items. by rewrite Hsl2. }
  rewrite (bind_ok _ _ _ _ _ Hitems).
  apply (bind_post _ _ _ (λ r, r.1 ≠ Raise OutOfFuel)).
  { intros e w4 H4 Heq.
    assert (e = OutOfFuel) as -> by (cbn [fst] in Heq; congruence).
    refine (while_over_terminates (S (length items)) sl rp 0%nat total_size max_storage
              w2 items Hsl2 _ _); [lia|].
    by rewrite H4. }
  intros [] w4 _.
  apply (bind_post _ _ _ (λ r, r.1 ≠ Raise OutOfFuel)).
  { unfold getvalue. intros e w5 H5. repeat (case_match; simplify_eq/=; try done). }
  intros out w5 _. by rewrite ship_report_eq.
Qed.

Lemma sum_sizes_nonneg l : (∀ x, x ∈ l → 0 ≤ item2 x) → 0 ≤ sum_sizes l.
Proof.
  induction l as [|x l IH]; intros H; simpl; [lia|].
  assert (0 ≤ item2 x) by (apply H; set_solver).
  assert (0 ≤ sum_sizes l) by (apply IH; intros y Hy; apply H; set_solver). lia.
Qed.

(** C6, as the code has it. On the retained files (a list of files that are
    on disk, each once, of sizes that are not negative), for every total and
    every target the call comes to an end within the steps the list allows,
    either returning normally or raising [IndexError] past the end of the
    list.  With a negative target and the total of the sizes for total, it is
    the second: every file of the list has been removed, the running total
    has come down to 0, and the call ends with [IndexError], nothing being
    printed or posted. *)
Theorem get_under_max_size_stops file_list items w :
  heap w !! file_list = Some (PyList items) →
  (∀ x, x ∈ items → is_Some (fs_files w !! item0 x)) →
  NoDup (item0 <$> items) →
  (∀ x, x ∈ items → 0 ≤ item2 x) →
  (∀ total_size max_storage,
     let r := get_under_max_size file_list total_size max_storage w in
     r.1 ≠ Raise OutOfFuel ∧ (r.1 = Ok () ∨ r.1 = Raise IndexError)) ∧
  (∀ max_storage, max_storage < 0 →
     let r := get_under_max_size file_list (sum_sizes items) max_storage w in
     r.1 = Raise IndexError ∧
     (∀ x, x ∈ items → fs_files r.2 !! item0 x = None) ∧
     sum_sizes items - sum_sizes (sort_by_date items) = 0 ∧
     output r.2 = output w).
Proof.
  intros Hfl Hin Hnd Hsizes.
  assert (Hrun : ∀ total_size max_storage, _) by
    exact (λ total_size max_storage,
      get_under_max_size_run file_list total_size max_storage w items Hfl
        (λ x Hx, Hin x (sorted_prefix_elem _ _ _ Hx)) (sorted_prefix_NoDup _ _ Hnd)).
  split.
  - intros total_size max_storage r. split; [apply get_under_max_size_terminates|].
    subst r. rewrite Hrun. case_decide; eauto.
  - intros max_storage Hneg r. subst r. rewrite Hrun.
    pose proof (sum_sizes_perm _ _ (sort_by_date_perm items)) as Hsum.
    destruct (evict_count_stop (sort_by_date items) (sum_sizes items) max_storage)
      as [Hstop|[Hk Hover]].
    + exfalso. revert Hstop.
      generalize (evict_count (sort_by_date items) (sum_sizes items) max_storage).
      intros k Hstop.
      assert (0 ≤ sum_sizes (drop k (sort_by_date items))).
      { apply sum_sizes_nonneg. intros x Hx. apply Hsizes.
        apply subseteq_drop in Hx. by rewrite sort_by_date_perm in Hx. }
      rewrite sum_sizes_take_drop in *. lia.
    + rewrite Hk, firstn_all. rewrite decide_False by lia.
      split; [done|]. split; [|split; [lia|done]].
      intros x Hx. simpl. rewrite remove_files_lookup.
      rewrite decide_True; [done|]. apply list_elem_of_fmap. exists x.
      split; [done|]. by rewrite sort_by_date_perm.
Qed.

Lemma get_under_max_size_stops_witness :
  (∀ total_size max_storage,
     let r := get_under_max_size 1%positive total_size max_storage example_world in
     r.1 ≠ Raise OutOfFuel ∧ (r.1 = Ok () ∨ r.1 = Raise IndexError)) ∧
  (∀ max_storage, max_storage < 0 →
     let r := get_under_max_size 1%positive (sum_sizes example_items) max_storage
                example_world in
     r.1 = Raise IndexError ∧
     (∀ x, x ∈ example_items → fs_files r.2 !! item0 x = None) ∧
     sum_sizes example_items - sum_sizes (sort_by_date example_items) = 0 ∧
     output r.2 = output example_world).
Proof.
  apply (get_under_max_size_stops 1%positive example_items example_world).
  - reflexivity.
  - exact example_items_on_disk.
  - exact example_items_NoDup.
  - apply Forall_forall.
    repeat first [apply Forall_nil_2 | apply Forall_cons_2; [by vm_compute|]].
Defined.

(** With a target of -1 the call does not return: the three files are
    removed, then [sorted_list[3]] raises [IndexError]; the report of the
    deletions is neither printed nor uploaded. *)
Lemma get_under_max_size_negative_target_raises :
  (get_under_max_size 1%positive 110 (-1) example_world).1 = Raise IndexError ∧
  (get_under_max_size 1%positive 110 (-1) example_world).1 ≠ Ok () ∧
  fs_files (get_under_max_size 1%positive 110 (-1) example_world).2 = ∅ ∧
  output (get_under_max_size 1%positive 110 (-1) example_world).2 = [].
Proof. by vm_compute. Qed.

(** ** The scanner *)

Lemma expired_lines_names fs e names : (expired_lines fs e names).*1 ⊆ names.
Proof.
  induction names as [|n names IH]; simpl; [done|].
  unfold expired_lines in *. simpl.
  destruct (fs !! n) as [st|]; simpl; [destruct (is_expired e st); simpl|]; set_solver.
Qed.

Lemma retained_items_names fs e names : item0 <$> retained_items fs e names ⊆ names.
Proof.
  induction names as [|n names IH]; simpl; [done|].
  unfold retained_items in *. simpl.
  destruct (fs !! n) as [st|]; simpl; [destruct (is_expired e st); simpl|]; set_solver.
Qed.

Lemma omap_lookup_ext {A B} (f g : A → option B) (l : list A) :
  (∀ x, x ∈ l → f x = g x) → omap f l = omap g l.
Proof.
  induction l as [|x l IH]; intros H; [done|].
  assert (Hl : omap f l = omap g l) by (apply IH; intros y Hy; apply H; set_solver).
  assert (Hx : f x = g x) by (apply H; set_solver).
  cbn. rewrite Hx. destruct (g x); [f_equal|]; exact Hl.
Qed.

(** Removing files that are not among [names] does not change how [names]
    are classified. *)
Lemma expired_lines_remove fs e names removed :
  (∀ n, n ∈ names → n ∉ removed) →
  expired_lines (remove_files removed fs) e names = expired_lines fs e names.
Proof.
  intros H. apply omap_lookup_ext. intros n Hn.
  rewrite remove_files_lookup. by rewrite decide_False by auto.
Qed.

Lemma retained_items_remove fs e names removed :
  (∀ n, n ∈ names → n ∉ removed) →
  retained_items (remove_files removed fs) e names = retained_items fs e names.
Proof.
  intros H. apply omap_lookup_ext. intros n Hn.
  rewrite remove_files_lookup. by rewrite decide_False by auto.
Qed.

Lemma remove_files_app l1 l2 fs :
  remove_files (l1 ++ l2) fs = remove_files l2 (remove_files l1 fs).
Proof. unfold remove_files. by rewrite foldl_app. Qed.

Ltac heap_eq :=
  apply map_eq; intros ?; rewrite ?lookup_insert; repeat case_decide; simplify_eq;
  rewrite <- ?app_assoc; try done.

Lemma classify_cons_expired fs e n names st :
  fs !! n = Some st → is_expired e st = true →
  expired_lines fs e (n :: names) = (n, st_mtime st) :: expired_lines fs e names ∧
  retained_items fs e (n :: names) = retained_items fs e names.
Proof.
  intros Hst He. unfold expired_lines, retained_items. cbn. rewrite Hst. cbn. by rewrite He.
Qed.

Lemma classify_cons_retained fs e n names st :
  fs !! n = Some st → is_expired e st = false →
  expired_lines fs e (n :: names) = expired_lines fs e names ∧
  retained_items fs e (n :: names)
  = (n, st_mtime st, st_size st) :: retained_items fs e names.
Proof.
  intros Hst He. unfold expired_lines, retained_items. cbn. rewrite Hst. cbn. by rewrite He.
Qed.

(** The files of one directory, all on disk and each listed once. *)
Lemma scan_files_run dir_name e fl rp files : ∀ total_size w items lines,
  heap w !! fl = Some (PyList items) →
  heap w !! rp = Some (StringIO lines) →
  (∀ n, n ∈ full_name dir_name <$> files → is_Some (fs_files w !! n)) →
  NoDup (full_name dir_name <$> files) →
  let retained := retained_items (fs_files w) e (full_name dir_name <$> files) in
  let expired := expired_lines (fs_files w) e (full_name dir_name <$> files) in
  scan_files dir_name files e fl rp total_size w =
    (Ok (total_size + sum_sizes retained),
     set_files (remove_files expired.*1 (fs_files w))
       (set_heap (<[fl := PyList (items ++ retained)]>
                    (<[rp := StringIO (lines ++ expired)]> (heap w))) w)).
Proof.
  induction files as [|fname files IH]; intros total_size w items lines Hfl Hrp Hin Hnd.
  - simpl. unfold ret. f_equal; [f_equal; lia|].
    apply world_eq; simpl; try done.
    rewrite !app_nil_r. rewrite (insert_id _ rp) by done. by rewrite insert_id.
  - assert (Hne : fl ≠ rp) by (intros ->; congruence).
    rewrite fmap_cons in Hin, Hnd. apply NoDup_cons in Hnd as [Hnotin Hnd].
    destruct (Hin (full_name dir_name fname)) as [st Hst]; [set_solver|].
    cbn [scan_files]. cbv zeta.
    erewrite bind_ok; [|unfold os_stat; rewrite Hst; reflexivity].
    rewrite fmap_cons.
    set (n := full_name dir_name fname) in *.
    set (names := full_name dir_name <$> files) in *.
    destruct (st_mtime st <? e) eqn:Hexp.
    + destruct (classify_cons_expired (fs_files w) e n names st Hst Hexp) as [-> ->].
      set (w1 := set_files (delete n (fs_files w))
                   (set_heap (<[rp := StringIO (lines ++ [(n, st_mtime st)])]> (heap w)) w)).
      erewrite bind_ok;
        [|unfold delete_file, bind, io_write, os_remove; rewrite Hrp; simpl; rewrite Hst;
          reflexivity].
      etrans; [apply (IH total_size w1 items (lines ++ [(n, st_mtime st)]))|].
      * simpl. by rewrite lookup_insert_ne.
      * simpl. by rewrite lookup_insert_eq.
      * intros m Hm. simpl. rewrite lookup_delete_ne; [apply Hin; set_solver|].
        intros <-. done.
      * done.
      * fold names.
        assert (Hfs : fs_files w1 = remove_files [n] (fs_files w)) by done.
        rewrite Hfs.
        rewrite retained_items_remove, expired_lines_remove by set_solver.
        f_equal. apply world_eq; simpl; try done. heap_eq.
    + destruct (classify_cons_retained (fs_files w) e n names st Hst Hexp) as [-> ->].
      set (x := (n, st_mtime st, st_size st)).
      set (w1 := set_heap (<[fl := PyList (items ++ [x])]> (heap w)) w).
      erewrite bind_ok; [|unfold list_append; rewrite Hfl; reflexivity].
      etrans; [apply (IH (total_size + st_size st) w1 (items ++ [x]) lines)|].
      * simpl. by rewrite lookup_insert_eq.
      * simpl. by rewrite lookup_insert_ne.
      * intros m Hm. simpl. apply Hin. set_solver.
      * done.
      * fold names. simpl fs_files.
        f_equal; [f_equal; simpl; unfold item2; simpl; lia|].
        apply world_eq; simpl; try done. heap_eq.
Qed.

Lemma visited_names_cons dir_name files walk :
  visited_names ((dir_name, files) :: walk)
  = (full_name dir_name <$> files) ++ visited_names walk.
Proof. done. Qed.

Lemma expired_lines_app fs e l1 l2 :
  expired_lines fs e (l1 ++ l2) = expired_lines fs e l1 ++ expired_lines fs e l2.
Proof. unfold expired_lines. apply omap_app. Qed.

Lemma retained_items_app fs e l1 l2 :
  retained_items fs e (l1 ++ l2) = retained_items fs e l1 ++ retained_items fs e l2.
Proof. unfold retained_items. apply omap_app. Qed.

(** The whole walk, all its files on disk and each listed once. *)
Lemma scan_walk_run e fl rp walk : ∀ total_size w items lines,
  heap w !! fl = Some (PyList items) →
  heap w !! rp = Some (StringIO lines) →
  (∀ n, n ∈ visited_names walk → is_Some (fs_files w !! n)) →
  NoDup (visited_names walk) →
  let retained := retained_items (fs_files w) e (visited_names walk) in
  let expired := expired_lines (fs_files w) e (visited_names walk) in
  scan_walk walk e fl rp total_size w =
    (Ok (total_size + sum_sizes retained),
     set_files (remove_files expired.*1 (fs_files w))
       (set_heap (<[fl := PyList (items ++ retained)]>
                    (<[rp := StringIO (lines ++ expired)]> (heap w))) w)).
Proof.
  induction walk as [|[dir_name files] walk IH]; intros total_size w items lines Hfl Hrp Hin Hnd.
  - simpl. unfold ret. f_equal; [f_equal; lia|].
    apply world_eq; simpl; try done.
    rewrite !app_nil_r. rewrite (insert_id _ rp) by done. by rewrite insert_id.
  - assert (Hne : fl ≠ rp) by (intros ->; congruence).
    rewrite visited_names_cons in *.
    set (names1 := full_name dir_name <$> files) in *.
    set (names2 := visited_names walk) in *.
    apply NoDup_app in Hnd as (Hnd1 & Hdisj & Hnd2).
    cbn [scan_walk].
    erewrite bind_ok;
      [|apply (scan_files_run dir_name e fl rp files total_size w items lines Hfl Hrp);
        [intros n Hn; apply Hin; set_solver | done]].
    fold names1.
    set (R1 := retained_items (fs_files w) e names1).
    set (E1 := expired_lines (fs_files w) e names1).
    set (w1 := set_files _ _).
    assert (Hout : ∀ n, n ∈ names2 → n ∉ E1.*1).
    { intros n Hn HE. apply (expired_lines_names (fs_files w) e names1) in HE.
      by apply (Hdisj n). }
    etrans; [apply (IH _ w1 (items ++ R1) (lines ++ E1))|].
    + simpl. by rewrite lookup_insert_eq.
    + simpl. rewrite lookup_insert_ne by done. by rewrite lookup_insert_eq.
    + intros n Hn. simpl. rewrite remove_files_lookup.
      rewrite decide_False by auto. apply Hin. set_solver.
    + done.
    + fold names2. simpl fs_files.
      rewrite retained_items_remove, expired_lines_remove by done.
      rewrite retained_items_app, expired_lines_app. fold R1 E1.
      rewrite fmap_app, remove_files_app, sum_sizes_app.
      f_equal; [f_equal; lia|].
      apply world_eq; simpl; try done. heap_eq.
Qed.

Lemma listing_on_disk w top n :
  n ∈ visited_names (listing w top) → is_Some (fs_files w !! n).
Proof.
  unfold visited_names, listing. intros Hn.
  apply list_elem_of_join in Hn as (names & Hn & Hnames).
  apply list_elem_of_fmap in Hnames as (d & -> & Hd).
  apply list_elem_of_fmap in Hd as (d0 & -> & _). simpl in Hn.
  apply list_elem_of_fmap in Hn as (fname & -> & Hfname).
  by apply list_elem_of_filter in Hfname as [? _].
Qed.

Lemma elem_of_expired_lines fs e names n m :
  (n, m) ∈ expired_lines fs e names ↔
  n ∈ names ∧ ∃ st, fs !! n = Some st ∧ is_expired e st = true ∧ m = st_mtime st.
Proof.
  unfold expired_lines. rewrite list_elem_of_omap. split.
  - intros (n' & Hn' & Heq). destruct (fs !! n') as [st|] eqn:Hst; simpl in Heq; [|done].
    destruct (is_expired e st) eqn:He; simplify_eq. eauto 6.
  - intros (Hn & st & Hst & He & ->). exists n. split; [done|].
    rewrite Hst. simpl. by rewrite He.
Qed.

Lemma elem_of_retained_items fs e names x :
  x ∈ retained_items fs e names ↔
  item0 x ∈ names ∧ ∃ st, fs !! item0 x = Some st ∧ is_expired e st = false ∧
                          x = (item0 x, st_mtime st, st_size st).
Proof.
  unfold retained_items. rewrite list_elem_of_omap. split.
  - intros (n' & Hn' & Heq). destruct (fs !! n') as [st|] eqn:Hst; simpl in Heq; [|done].
    destruct (is_expired e st) eqn:He; simplify_eq. unfold item0. simpl. eauto 6.
  - intros (Hn & st & Hst & He & Hx). exists (item0 x). split; [done|].
    rewrite Hst. simpl. rewrite He. by rewrite <- Hx.
Qed.

Lemma retained_items_NoDup fs e names :
  NoDup names → NoDup (item0 <$> retained_items fs e names).
Proof.
  induction 1 as [|n names Hn Hnd IH]; [constructor|].
  unfold retained_items in *. cbn.
  destruct (fs !! n) as [st|]; cbn; [|done].
  destruct (is_expired e st); [done|]. cbn. constructor; [|done].
  intros Hin. apply Hn. by apply (retained_items_names fs e names).
Qed.

(** C2. The scanner, on the files the walk lists (each once) and starting
    from an empty list, an empty report and a total of 0, returns normally,
    and for every file it visits: if the file was last modified strictly
    before the cutoff, it is no longer on disk, its name and date are in the
    report of expired files, and it is not in the retained list; otherwise it
    is still on disk as it was, it is not in that report, and its tuple is in
    the retained list.  The retained list names each file at most once and
    only files that were visited, and the total returned is the sum of the
    sizes in it: each retained file is counted once. *)
Theorem scan_classifies top earliest_date file_list deleted_files_report w :
  heap w !! file_list = Some (PyList []) →
  heap w !! deleted_files_report = Some (StringIO []) →
  NoDup (visited_names (listing w top)) →
  ∃ (w' : world) (retained : list file_tuple) (expired : list report_line),
    scan_walk (listing w top) earliest_date file_list deleted_files_report 0 w
      = (Ok (sum_sizes retained), w') ∧
    heap w' !! file_list = Some (PyList retained) ∧
    heap w' !! deleted_files_report = Some (StringIO expired) ∧
    NoDup (item0 <$> retained) ∧
    (∀ x, x ∈ retained → item0 x ∈ visited_names (listing w top)) ∧
    (∀ name, name ∉ visited_names (listing w top) →
       fs_files w' !! name = fs_files w !! name) ∧
    ∀ name, name ∈ visited_names (listing w top) →
      ∃ st, fs_files w !! name = Some st ∧
        if st_mtime st <? earliest_date
        then fs_files w' !! name = None ∧
             (name, st_mtime st) ∈ expired ∧
             name ∉ item0 <$> retained
        else fs_files w' !! name = Some st ∧
             name ∉ expired.*1 ∧
             (name, st_mtime st, st_size st) ∈ retained.
Proof.
  intros Hfl Hrp Hnd.
  set (names := visited_names (listing w top)) in *.
  set (R := retained_items (fs_files w) earliest_date names).
  set (E := expired_lines (fs_files w) earliest_date names).
  assert (Hne : file_list ≠ deleted_files_report) by (intros ->; congruence).
  pose proof (scan_walk_run earliest_date file_list deleted_files_report (listing w top)
                0 w [] [] Hfl Hrp (listing_on_disk w top) Hnd) as Hrun.
  cbv zeta in Hrun. fold names R E in Hrun. simpl in Hrun.
  eexists _, R, E. split; [exact Hrun|].
  split; [simpl; by rewrite lookup_insert_eq|].
  split; [simpl; rewrite lookup_insert_ne by done; by rewrite lookup_insert_eq|].
  split; [by apply retained_items_NoDup|].
  split; [intros x Hx; by apply elem_of_retained_items in Hx as [? _]|].
  split.
  { intros name Hname. simpl. rewrite remove_files_lookup.
    rewrite decide_False; [done|]. intros HE.
    by apply (expired_lines_names (fs_files w) earliest_date names) in HE. }
  intros name Hname. destruct (listing_on_disk w top name Hname) as [st Hst].
  exists st. split; [done|]. simpl. rewrite remove_files_lookup.
  destruct (st_mtime st <? earliest_date) eqn:Hexp.
  - assert (HE : (name, st_mtime st) ∈ E) by (apply elem_of_expired_lines; eauto 6).
    split; [|split; [done|]].
    + rewrite decide_True; [done|]. apply list_elem_of_fmap. by exists (name, st_mtime st).
    + intros HR. apply list_elem_of_fmap in HR as (x & -> & Hx).
      apply elem_of_retained_items in Hx as (_ & st' & Hst' & He' & _).
      unfold is_expired in He'. congruence.
  - assert (HnotE : name ∉ E.*1).
    { intros HE. apply list_elem_of_fmap in HE as ([n m] & -> & Hnm).
      apply elem_of_expired_lines in Hnm as (_ & st' & Hst' & He' & _).
      simpl in *. unfold is_expired in He'. congruence. }
    split; [by rewrite decide_False|]. split; [done|].
    apply elem_of_retained_items. unfold item0. simpl. eauto 6.
Qed.

Lemma scan_classifies_witness :
  ∃ (w' : world) (retained : list file_tuple) (expired : list report_line),
    scan_walk (listing scan_world "/srv/uploads") 150 1%positive 2%positive 0 scan_world
      = (Ok (sum_sizes retained), w') ∧
    heap w' !! 1%positive = Some (PyList retained) ∧
    heap w' !! 2%positive = Some (StringIO expired) ∧
    NoDup (item0 <$> retained) ∧
    (∀ x, x ∈ retained → item0 x ∈ visited_names (listing scan_world "/srv/uploads")) ∧
    (∀ name, name ∉ visited_names (listing scan_world "/srv/uploads") →
       fs_files w' !! name = fs_files scan_world !! name) ∧
    ∀ name, name ∈ visited_names (listing scan_world "/srv/uploads") →
      ∃ st, fs_files scan_world !! name = Some st ∧
        if st_mtime st <? 150
        then fs_files w' !! name = None ∧
             (name, st_mtime st) ∈ expired ∧
             name ∉ item0 <$> retained
        else fs_files w' !! name = Some st ∧
             name ∉ expired.*1 ∧
             (name, st_mtime st, st_size st) ∈ retained.
Proof.
  apply (scan_classifies "/srv/uploads" 150 1%positive 2%positive scan_world).
  - reflexivity.
  - reflexivity.
  - apply (bool_decide_unpack _). by vm_compute.
Defined.

(** With a cutoff of 150, [b.bin] (date 100) goes and the other two are
    retained, 70 bytes in all. *)
Example scan_walk_scenario :
  let r := scan_walk (listing scan_world "/srv/uploads") 150 1%positive 2%positive 0
             scan_world in
  r.1 = Ok 70 ∧
  heap r.2 !! 1%positive
  = Some (PyList [("/srv/uploads/a.bin"%string, 300, 40);
                  ("/srv/uploads/old/c.bin"%string, 200, 30)]) ∧
  heap r.2 !! 2%positive = Some (StringIO [("/srv/uploads/b.bin"%string, 100)]) ∧
  fs_files r.2 = delete "/srv/uploads/b.bin"%string example_files.
Proof. by vm_compute. Qed.

(** ** Messages and what emits them *)

#[local] Instance emits_only_refl P : Reflexive (emits_only P).
Proof. intros w. exists []. by rewrite app_nil_r. Qed.
#[local] Instance emits_only_trans P : Transitive (emits_only P).
Proof.
  intros w1 w2 w3 (n1 & H1 & HP1) (n2 & H2 & HP2). exists (n1 ++ n2).
  rewrite H2, H1, app_assoc. split; [done|]. by apply Forall_app.
Qed.

Lemma same_output_emits P {A} (m : M A) : preserves same_output m → preserves (emits_only P) m.
Proof. intros H w. exists []. rewrite app_nil_r. split; [apply H|done]. Qed.

Lemma post_message_eq mrkdwn plain w :
  post_message mrkdwn plain w = (Ok (), emit (msg_event w mrkdwn plain) w).
Proof. unfold post_message, msg_event, print. by destruct (SLACK_CHANNEL w). Qed.

Lemma report_header_eq folder name done_header w :
  folder !! "name"%string = Some name →
  report_header folder done_header w
  = (Ok true, if done_header then w else emit (header_event w name) w).
Proof.
  intros Hname. unfold report_header, bind, getitem. rewrite Hname.
  destruct done_header; simpl; [done|]. unfold ret at 1. by rewrite post_message_eq.
Qed.

Lemma report_header_no_name folder w :
  folder !! "name"%string = None →
  report_header folder false w = (Raise (KeyError "name"), w).
Proof. intros Hname. unfold report_header, bind, getitem. by rewrite Hname. Qed.

Lemma emit_emits (P : event → Prop) e w : P e → emits_only P w (emit e w).
Proof. intros He. exists [e]. split; [done|]. by constructor. Qed.

Lemma post_message_emits (P : event → Prop) mrkdwn plain :
  (∀ w, P (msg_event w mrkdwn plain)) → preserves (emits_only P) (post_message mrkdwn plain).
Proof. intros HP w. rewrite post_message_eq. by apply emit_emits. Qed.

Lemma ship_report_emits (P : event → Prop) content title :
  (∀ w, P (report_event w content title)) →
  preserves (emits_only P) (ship_report content title).
Proof. intros HP w. rewrite ship_report_eq. by apply emit_emits. Qed.

Lemma while_over_output fuel sl rp index total_size max_storage :
  preserves same_output (while_over fuel sl rp index total_size max_storage).
Proof. apply while_over_preserves; [apply _..|]. intros. apply delete_file_output. Qed.

Lemma sorted_output file_list : preserves same_output (sorted file_list).
Proof.
  intros w. unfold sorted, bind, list_items, alloc, same_output.
  by repeat (case_match; simplify_eq/=).
Qed.

Lemma alloc_output o : preserves same_output (alloc o).
Proof. by intros w. Qed.

Lemma list_items_output l : preserves same_output (list_items l).
Proof. intros w. by rewrite list_items_same. Qed.

Lemma getvalue_output io : preserves same_output (getvalue io).
Proof. intros w. by rewrite getvalue_same. Qed.

(** [get_under_max_size] emits nothing but its report. *)
Lemma get_under_max_size_emits (P : event → Prop) file_list total_size max_storage :
  (∀ w content, P (report_event w content OverQuotaTitle)) →
  preserves (emits_only P) (get_under_max_size file_list total_size max_storage).
Proof.
  intros HP. unfold get_under_max_size.
  apply preserves_bind; [apply _| |intros sl].
  { apply same_output_emits, sorted_output. }
  apply preserves_bind; [apply _| |intros rp].
  { apply same_output_emits, alloc_output. }
  apply preserves_bind; [apply _| |intros items].
  { apply same_output_emits, list_items_output. }
  apply preserves_bind; [apply _| |intros _].
  { apply same_output_emits, while_over_output. }
  apply preserves_bind; [apply _| |intros out].
  { apply same_output_emits, getvalue_output. }
  by apply ship_report_emits.
Qed.

Lemma emit_all_output es w : output (emit_all es w) = output w ++ es.
Proof.
  revert w. induction es as [|e es IH]; intros w; simpl; [by rewrite app_nil_r|].
  rewrite IH. simpl. by rewrite <- app_assoc.
Qed.

Lemma emit_all_app es1 es2 w : emit_all (es1 ++ es2) w = emit_all es2 (emit_all es1 w).
Proof. unfold emit_all. by rewrite foldl_app. Qed.

Lemma emit_all_fields es w :
  fs_files (emit_all es w) = fs_files w ∧ heap (emit_all es w) = heap w ∧
  SLACK_CHANNEL (emit_all es w) = SLACK_CHANNEL w ∧ SLACK_TOKEN (emit_all es w) = SLACK_TOKEN w.
Proof.
  revert w. induction es as [|e es IH]; intros w; simpl; [done|].
  destruct (IH (emit e w)) as (-> & -> & -> & ->). done.
Qed.

Lemma msg_event_emit_all es w mrkdwn plain :
  msg_event (emit_all es w) mrkdwn plain = msg_event w mrkdwn plain.
Proof.
  unfold msg_event. destruct (emit_all_fields es w) as (_ & _ & -> & ->). done.
Qed.

(** The two branches of [check_storage], once the folder has a name. *)
Lemma check_storage_over folder name (output_header : bool) file_list total_size max_storage
    warn_storage w :
  folder !! "name"%string = Some name →
  max_storage < total_size →
  let header : list event := if output_header then [] else [header_event w name] in
  let target := default max_storage warn_storage in
  check_storage folder output_header file_list total_size max_storage warn_storage w
  = get_under_max_size file_list total_size target
      (emit_all (header ++ [msg_event w None (OverLimitText (total_size - target))]) w).
Proof.
  intros Hname Hover header target. unfold check_storage.
  rewrite (proj2 (Z.ltb_lt _ _) Hover).
  rewrite (bind_ok _ _ _ _ _ (report_header_eq folder name output_header w Hname)).
  assert (Htarget : match warn_storage with Some ws => ws | None => max_storage end = target)
    by (by destruct warn_storage).
  rewrite Htarget.
  erewrite bind_ok; [|apply post_message_eq].
  f_equal. subst header. destruct output_header; simpl; [done|].
  unfold msg_event. done.
Qed.

Lemma check_storage_within folder name (output_header : bool) file_list total_size max_storage
    warn_storage w :
  folder !! "name"%string = Some name →
  total_size ≤ max_storage →
  let header : list event := if output_header then [] else [header_event w name] in
  check_storage folder output_header file_list total_size max_storage warn_storage w
  = match warn_storage with
    | Some ws =>
        if ws <? total_size
        then (Ok (), emit_all (header ++ [msg_event w (Some (WarningText true total_size ws))
                                            (WarningText false total_size ws)]) w)
        else (Ok (), w)
    | None => (Raise TypeError, w)
    end.
Proof.
  intros Hname Hle header. unfold check_storage.
  rewrite (proj2 (Z.ltb_ge _ _) Hle).
  destruct warn_storage as [ws|]; [|done].
  unfold bind at 1. unfold py_gt, ret at 1.
  destruct (ws <? total_size); [|done].
  rewrite (bind_ok _ _ _ _ _ (report_header_eq folder name output_header w Hname)).
  rewrite post_message_eq. simpl default.
  subst header. destruct output_header; simpl; [done|].
  unfold msg_event. done.
Qed.

Lemma emitted_app w w' new : output w' = output w ++ new → emitted w w' = new.
Proof. intros H. unfold emitted. rewrite H. by rewrite drop_app_length. Qed.

Lemma header_event_figures w name :
  over_limit_bytes (header_event w name) = None ∧
  warning_figures (header_event w name) = None ∧
  header_name (header_event w name) = Some name.
Proof. unfold header_event, msg_event. by destruct (SLACK_CHANNEL w). Qed.

Lemma over_limit_event_figures w n :
  over_limit_bytes (msg_event w None (OverLimitText n)) = Some n ∧
  warning_figures (msg_event w None (OverLimitText n)) = None ∧
  header_name (msg_event w None (OverLimitText n)) = None.
Proof. unfold msg_event. by destruct (SLACK_CHANNEL w). Qed.

Lemma warning_event_figures w t ws :
  over_limit_bytes (msg_event w (Some (WarningText true t ws)) (WarningText false t ws)) = None ∧
  warning_figures (msg_event w (Some (WarningText true t ws)) (WarningText false t ws))
    = Some (t, ws) ∧
  header_name (msg_event w (Some (WarningText true t ws)) (WarningText false t ws)) = None.
Proof. unfold msg_event. by destruct (SLACK_CHANNEL w). Qed.

Lemma report_event_figures w content title :
  over_limit_bytes (report_event w content title) = None ∧
  warning_figures (report_event w content title) = None ∧
  header_name (report_event w content title) = None.
Proof. unfold report_event. by destruct (SLACK_CHANNEL w). Qed.

(** C3. For a folder that has a name, whatever the list, the total and the
    thresholds: when the total is over [max_storage], [check_storage] posts
    the over-limit message with [total - target] bytes to free and runs
    [get_under_max_size] with that target, the target being [warn_storage]
    when it is set and [max_storage] otherwise; when the total is not over
    [max_storage], no file and no object is touched.  An over-limit message
    is emitted exactly when the total is over [max_storage], and it states
    [total - target].  A warning is emitted only when [warn_storage] is set,
    the total is over it and not over [max_storage]; it states the total and
    the threshold, and it is emitted whenever those three hold. *)
Theorem check_storage_outcomes folder name (output_header : bool) file_list total_size
    max_storage warn_storage w :
  folder !! "name"%string = Some name →
  let header : list event := if output_header then [] else [header_event w name] in
  let target := default max_storage warn_storage in
  let r := check_storage folder output_header file_list total_size max_storage
             warn_storage w in
  (max_storage < total_size →
     r = get_under_max_size file_list total_size target
           (emit_all (header ++ [msg_event w None (OverLimitText (total_size - target))]) w)) ∧
  (total_size ≤ max_storage → fs_files r.2 = fs_files w ∧ heap r.2 = heap w) ∧
  ((∃ e, e ∈ emitted w r.2 ∧ is_Some (over_limit_bytes e)) ↔ max_storage < total_size) ∧
  (∀ e n, e ∈ emitted w r.2 → over_limit_bytes e = Some n → n = total_size - target) ∧
  (∀ e t ws, e ∈ emitted w r.2 → warning_figures e = Some (t, ws) →
     warn_storage = Some ws ∧ ws < total_size ∧ total_size ≤ max_storage ∧ t = total_size) ∧
  (∀ ws, warn_storage = Some ws → ws < total_size → total_size ≤ max_storage →
     ∃ e, e ∈ emitted w r.2 ∧ warning_figures e = Some (total_size, ws)).
Proof.
  intros Hname header target r.
  destruct (Z.lt_ge_cases max_storage total_size) as [Hover|Hle].
  - pose proof (check_storage_over folder name output_header file_list total_size
                  max_storage warn_storage w Hname Hover) as Hr.
    cbv zeta in Hr. fold header target r in Hr.
    set (ol := msg_event w None (OverLimitText (total_size - target))) in *.
    set (w1 := emit_all (header ++ [ol]) w) in *.
    destruct (get_under_max_size_emits
                (λ e, over_limit_bytes e = None ∧ warning_figures e = None)
                file_list total_size target
                (λ w0 content, let H := report_event_figures w0 content OverQuotaTitle in
                               conj (proj1 H) (proj1 (proj2 H))) w1)
      as (new2 & Hout & Hnew2).
    rewrite <- Hr in Hout. unfold w1 in Hout. rewrite emit_all_output in Hout.
    rewrite <- app_assoc in Hout. rewrite (emitted_app _ _ _ Hout).
    assert (Hhdr : ∀ e, e ∈ header → over_limit_bytes e = None ∧ warning_figures e = None).
    { intros e He. subst header. destruct output_header; [set_solver|].
      apply list_elem_of_singleton in He as ->.
      destruct (header_event_figures w name) as (? & ? & _). done. }
    destruct (over_limit_event_figures w (total_size - target)) as (Hol1 & Hol2 & _).
    fold ol in Hol1, Hol2. rewrite Forall_forall in Hnew2.
    split; [done|]. split; [lia|]. split; [|split; [|split]].
    + split; [done|]. intros _. exists ol. split; [set_solver|]. by rewrite Hol1.
    + intros e n He Hn. rewrite !elem_of_app in He. destruct He as [[He|He]|He].
      * destruct (Hhdr e He). congruence.
      * apply list_elem_of_singleton in He as ->. congruence.
      * destruct (Hnew2 e He). congruence.
    + intros e t ws He Hf. rewrite !elem_of_app in He. destruct He as [[He|He]|He].
      * destruct (Hhdr e He). congruence.
      * apply list_elem_of_singleton in He as ->. congruence.
      * destruct (Hnew2 e He). congruence.
    + intros ws _ _ ?. lia.
  - pose proof (check_storage_within folder name output_header file_list total_size
                  max_storage warn_storage w Hname Hle) as Hr.
    cbv zeta in Hr. fold header r in Hr.
    split; [lia|].
    destruct warn_storage as [ws|]; [destruct (Z.ltb_spec ws total_size) as [Hws|Hws]|].
    + set (wm := msg_event w (Some (WarningText true total_size ws))
                   (WarningText false total_size ws)) in *.
      destruct (warning_event_figures w total_size ws) as (Hw1 & Hw2 & _).
      fold wm in Hw1, Hw2.
      assert (Hhdr : ∀ e, e ∈ header → over_limit_bytes e = None ∧ warning_figures e = None).
      { intros e He. subst header. destruct output_header; [set_solver|].
        apply list_elem_of_singleton in He as ->.
        destruct (header_event_figures w name) as (? & ? & _). done. }
      rewrite Hr. simpl snd.
      destruct (emit_all_fields (header ++ [wm]) w) as (-> & -> & _).
      rewrite (emitted_app _ _ (header ++ [wm])) by apply emit_all_output.
      split; [done|]. split; [|split; [|split]].
      * split; [|lia]. intros (e & He & Hsome). rewrite elem_of_app in He.
        destruct He as [He|He].
        -- destruct (Hhdr e He) as [Hn _]. rewrite Hn in Hsome. by destruct Hsome.
        -- apply list_elem_of_singleton in He as ->. rewrite Hw1 in Hsome. by destruct Hsome.
      * intros e n He Hn. rewrite elem_of_app in He. destruct He as [He|He].
        -- destruct (Hhdr e He). congruence.
        -- apply list_elem_of_singleton in He as ->. congruence.
      * intros e t ws' He Hf. rewrite elem_of_app in He. destruct He as [He|He].
        -- destruct (Hhdr e He). congruence.
        -- apply list_elem_of_singleton in He as ->. rewrite Hw2 in Hf.
           by simplify_eq.
      * intros ws' ? _ _. simplify_eq. exists wm. split; [set_solver|done].
    + rewrite Hr. simpl snd. rewrite (emitted_app _ _ []) by (by rewrite app_nil_r).
      split; [done|]. split; [|split; [|split]].
      * split; [|lia]. intros (e & He & _). set_solver.
      * intros e n He. set_solver.
      * intros e t ws' He. set_solver.
      * intros ws' ? ? _. simplify_eq. lia.
    + rewrite Hr. simpl snd. rewrite (emitted_app _ _ []) by (by rewrite app_nil_r).
      split; [done|]. split; [|split; [|split]].
      * split; [|lia]. intros (e & He & _). set_solver.
      * intros e n He. set_solver.
      * intros e t ws' He. set_solver.
      * intros ws' ?. done.
Qed.

Lemma check_storage_outcomes_witness :
  let w := example_world in
  let header : list event := [header_event w (PStr "lounge")] in
  let target := default 100 (Some 80) in
  let r := check_storage example_folder false 1%positive 110 100 (Some 80) w in
  (100 < 110 →
     r = get_under_max_size 1%positive 110 target
           (emit_all (header ++ [msg_event w None (OverLimitText (110 - target))]) w)) ∧
  (110 ≤ 100 → fs_files r.2 = fs_files w ∧ heap r.2 = heap w) ∧
  ((∃ e, e ∈ emitted w r.2 ∧ is_Some (over_limit_bytes e)) ↔ 100 < 110) ∧
  (∀ e n, e ∈ emitted w r.2 → over_limit_bytes e = Some n → n = 110 - target) ∧
  (∀ e t ws, e ∈ emitted w r.2 → warning_figures e = Some (t, ws) →
     Some 80 = Some ws ∧ ws < 110 ∧ 110 ≤ 100 ∧ t = 110) ∧
  (∀ ws, Some 80 = Some ws → ws < 110 → 110 ≤ 100 →
     ∃ e, e ∈ emitted w r.2 ∧ warning_figures e = Some (110, ws)).
Proof.
  apply (check_storage_outcomes example_folder (PStr "lounge") false 1%positive 110 100
           (Some 80) example_world).
  reflexivity.
Defined.

(** The scenarios of the specification, in bytes: 110 retained, a limit of
    100.  With a warning threshold of 80 the target is 80; without one it is
    100.  Either way the oldest file goes and 70 bytes remain. *)
Example check_storage_scenario_warn :
  let r := check_storage example_folder false 1%positive 110 100 (Some 80) example_world in
  r.1 = Ok () ∧
  output r.2 = [Print (HeaderText false (PStr "lounge")); Print (OverLimitText 30);
                PrintReport [("/srv/uploads/b.bin"%string, 100)]] ∧
  fs_files r.2 = delete "/srv/uploads/b.bin"%string example_files.
Proof. by vm_compute. Qed.

Example check_storage_scenario_no_warn :
  let r := check_storage example_folder false 1%positive 110 100 None example_world in
  r.1 = Ok () ∧
  output r.2 = [Print (HeaderText false (PStr "lounge")); Print (OverLimitText 10);
                PrintReport [("/srv/uploads/b.bin"%string, 100)]] ∧
  fs_files r.2 = delete "/srv/uploads/b.bin"%string example_files.
Proof. by vm_compute. Qed.

(** ** The warning check without a warning threshold *)



(** ** The header *)

Lemma bind_post_silent {A B} (m : M A) (k : A → M B) w (Q : result B * world → Prop) :
  preserves same_output m →
  (∀ e w', output w' = output w → Q (Raise e, w')) →
  (∀ a w', output w' = output w → Q (k a w')) →
  Q (bind m k w).
Proof.
  intros Hm He Ha. pose proof (Hm w) as Hout. unfold same_output in Hout.
  apply bind_post; intros x w' Hx; rewrite Hx in Hout; simpl in Hout; eauto.
Qed.

Lemma pure_output {A} (m : M A) : (∀ w, (m w).2 = w) → preserves same_output m.
Proof. intros H w. by rewrite H. Qed.

Lemma getitem_output d key : preserves same_output (getitem d key).
Proof. apply pure_output. intros w. unfold getitem. by destruct (d !! key). Qed.

Lemma py_int_output v : preserves same_output (py_int v).
Proof.
  apply pure_output. intros w. unfold py_int. destruct v; try done. by destruct (int_of_str s).
Qed.

Lemma as_path_output v : preserves same_output (as_path v).
Proof. apply pure_output. intros w. by destruct v. Qed.

Lemma os_stat_output path : preserves same_output (os_stat path).
Proof. apply pure_output. intros w. unfold os_stat. by destruct (fs_files w !! path). Qed.

Lemma list_append_output l x : preserves same_output (list_append l x).
Proof. intros w. unfold list_append, same_output. by repeat case_match. Qed.

Lemma scan_files_output dir_name e fl rp files : ∀ total_size,
  preserves same_output (scan_files dir_name files e fl rp total_size).
Proof.
  induction files as [|fname files IH]; intros total_size; cbn [scan_files].
  - by apply preserves_ret.
  - apply preserves_bind; [apply _|apply os_stat_output|intros st]. cbv zeta.
    destruct (st_mtime st <? e).
    + apply preserves_bind; [apply _|apply delete_file_output|intros _]. apply IH.
    + apply preserves_bind; [apply _|apply list_append_output|intros _]. apply IH.
Qed.

Lemma scan_walk_output e fl rp walk : ∀ total_size,
  preserves same_output (scan_walk walk e fl rp total_size).
Proof.
  induction walk as [|[dir_name files] walk IH]; intros total_size; cbn [scan_walk].
  - by apply preserves_ret.
  - apply preserves_bind; [apply _|apply scan_files_output|intros t]. apply IH.
Qed.

(** The report of old files, before any header: either it emits nothing (and
    returns [False] or raises), or the folder has a name and it emits the
    header, the message and the report, and returns [True]. *)
Lemma report_old_files_cases folder days_to_keep rp w :
  let r := report_old_files folder days_to_keep rp false w in
  (output r.2 = output w ∧ r.1 ≠ Ok true) ∨
  (∃ name content,
     folder !! "name"%string = Some name ∧ r.1 = Ok true ∧
     output r.2 = output w ++ [header_event w name; msg_event w None (AgedOutText days_to_keep);
                               report_event w content OldFilesTitle]).
Proof.
  cbv zeta. unfold report_old_files.
  destruct (heap w !! rp) as [[items|written]|] eqn:Hrp.
  1,3: left; erewrite bind_raise; [done|unfold getvalue; by rewrite Hrp].
  erewrite bind_ok; [|unfold getvalue; by rewrite Hrp].
  destruct (decide (written = [])) as [->|Hne]; [by left|].
  rewrite bool_decide_eq_false_2 by done. cbn [negb].
  destruct (folder !! "name"%string) as [name|] eqn:Hname.
  - right. exists name, written. split; [done|].
    rewrite (bind_ok _ _ _ _ _ (report_header_eq folder name false w Hname)).
    erewrite bind_ok; [|apply post_message_eq].
    erewrite bind_ok; [|apply ship_report_eq].
    split; [done|]. simpl. rewrite <- !app_assoc. simpl.
    unfold msg_event, report_event. simpl. done.
  - left. by rewrite (bind_raise _ _ _ _ _ (report_header_no_name folder w Hname)).
Qed.

(** The storage check emits no header when one was output already; otherwise
    what it emits starts with the header, if it emits anything. *)
Lemma check_storage_header folder (output_header : bool) file_list total_size max_storage
    warn_storage w :
  (output_header = true → is_Some (folder !! "name"%string)) →
  ∃ new,
    output (check_storage folder output_header file_list total_size max_storage
              warn_storage w).2 = output w ++ new ∧
    if output_header then Forall (λ e, header_name e = None) new
    else header_first folder new.
Proof.
  intros Hoh. destruct (folder !! "name"%string) as [name|] eqn:Hname.
  - destruct (header_event_figures w name) as (_ & _ & Hhdr).
    destruct (Z.lt_ge_cases max_storage total_size) as [Hover|Hle].
    + rewrite (check_storage_over folder name output_header file_list total_size
                 max_storage warn_storage w Hname Hover).
      set (target := default max_storage warn_storage).
      set (ol := msg_event w None (OverLimitText (total_size - target))).
      destruct (over_limit_event_figures w (total_size - target)) as (_ & _ & Hol).
      fold ol in Hol.
      set (w1 := emit_all _ w).
      destruct (get_under_max_size_emits (λ e, header_name e = None)
                  file_list total_size target
                  (λ w0 content, proj2 (proj2 (report_event_figures w0 content OverQuotaTitle)))
                  w1) as (new2 & Hout & Hnew2).
      rewrite Hout. unfold w1. rewrite emit_all_output, <- !app_assoc.
      destruct output_header; simpl.
      * exists (ol :: new2). split; [done|]. by constructor.
      * exists (header_event w name :: ol :: new2). split; [done|].
        right. exists name, (header_event w name), (ol :: new2).
        repeat split; try done. by constructor.
    + rewrite (check_storage_within folder name output_header file_list total_size
                 max_storage warn_storage w Hname Hle).
      destruct warn_storage as [ws|]; [destruct (ws <? total_size)|].
      * destruct (warning_event_figures w total_size ws) as (_ & _ & Hwm).
        simpl snd. rewrite emit_all_output.
        destruct output_header; simpl.
        -- eexists. split; [done|]. by repeat constructor.
        -- eexists. split; [done|]. right.
           exists name, (header_event w name), [msg_event w (Some (WarningText true total_size ws))
                                             (WarningText false total_size ws)].
           repeat split; try done. by repeat constructor.
      * exists []. rewrite app_nil_r. split; [done|].
        destruct output_header; [done|by left].
      * exists []. rewrite app_nil_r. split; [done|].
        destruct output_header; [done|by left].
  - destruct output_header; [by destruct Hoh|].
    exists []. rewrite app_nil_r. split; [|by left].
    unfold check_storage. destruct (max_storage <? total_size).
    + by rewrite (bind_raise _ _ _ _ _ (report_header_no_name folder w Hname)).
    + unfold bind at 1, py_gt. destruct warn_storage as [ws|]; [|done]. unfold ret at 1.
      destruct (ws <? total_size); [|done].
      by rewrite (bind_raise _ _ _ _ _ (report_header_no_name folder w Hname)).
Qed.

(** C7. Whatever the folder and the world, and however [process_folder]
    ends: it emits nothing at all, or what it emits starts with the header
    that names the folder, followed by at least one other message or report,
    and contains no other header. *)
Theorem process_folder_header folder w :
  ∃ new,
    output (process_folder folder w).2 = output w ++ new ∧
    (new = [] ∨
     ∃ name hdr rest,
       new = hdr :: rest ∧
       folder !! "name"%string = Some name ∧ header_name hdr = Some name ∧
       rest ≠ [] ∧ Forall (λ e, header_name e = None) rest).
Proof.
  change (∃ new, output (process_folder folder w).2 = output w ++ new ∧ header_first folder new).
  set (Q := λ r : result () * world, ∃ new, output r.2 = output w ++ new ∧ header_first folder new).
  assert (Hraise : ∀ e w', output w' = output w → Q (Raise e, w')).
  { intros e w' Hw'. exists []. rewrite app_nil_r. split; [done|by left]. }
  change (Q (process_folder folder w)). unfold process_folder.
  apply bind_post_silent; [apply getitem_output|done|]. intros v1 w1 H1.
  apply bind_post_silent; [apply py_int_output|intros; apply Hraise; congruence|].
  intros days_to_keep w2 H2. rewrite H1 in H2.
  apply bind_post_silent; [apply getitem_output|intros; apply Hraise; congruence|].
  intros v3 w3 H3. rewrite H2 in H3.
  apply bind_post_silent; [apply py_int_output|intros; apply Hraise; congruence|].
  intros n w4 H4. rewrite H3 in H4.
  apply bind_post_silent; [|intros; apply Hraise; congruence|].
  { case_bool_decide; [|by apply preserves_ret].
    apply preserves_bind; [apply _|apply getitem_output|intros v].
    apply preserves_bind; [apply _|apply py_int_output|intros m]. by apply preserves_ret. }
  intros warn_storage w5 H5. rewrite H4 in H5.
  apply bind_post_silent; [by intros ?|intros; apply Hraise; congruence|].
  intros now w6 H6. rewrite H5 in H6.
  apply bind_post_silent; [apply alloc_output|intros; apply Hraise; congruence|].
  intros file_list w7 H7. rewrite H6 in H7.
  apply bind_post_silent; [apply alloc_output|intros; apply Hraise; congruence|].
  intros rp w8 H8. rewrite H7 in H8.
  apply bind_post_silent; [apply getitem_output|intros; apply Hraise; congruence|].
  intros v9 w9 H9. rewrite H8 in H9.
  apply bind_post_silent; [apply as_path_output|intros; apply Hraise; congruence|].
  intros top w10 H10. rewrite H9 in H10.
  apply bind_post_silent; [by intros ?|intros; apply Hraise; congruence|].
  intros walk w11 H11. rewrite H10 in H11.
  apply bind_post_silent; [apply scan_walk_output|intros; apply Hraise; congruence|].
  intros total_size w12 H12. rewrite H11 in H12.
  pose proof (report_old_files_cases folder days_to_keep rp w12) as Hcases.
  cbv zeta in Hcases. apply bind_post.
  - intros e w' Hr. rewrite Hr in Hcases. simpl in Hcases.
    destruct Hcases as [[Hout _]|(? & ? & _ & ? & _)]; [|done].
    apply Hraise. congruence.
  - intros oh w' Hr. rewrite Hr in Hcases. simpl in Hcases.
    destruct Hcases as [[Hout Hoh]|(name & content & Hname & Hoh & Hout)].
    + destruct oh; [done|].
      destruct (check_storage_header folder false file_list total_size (n * 1024 * 1024)
                  warn_storage w') as (new & Hnew & Hshape); [done|].
      exists new. split; [|done]. rewrite Hnew. congruence.
    + assert (oh = true) as -> by congruence.
      destruct (check_storage_header folder true file_list total_size (n * 1024 * 1024)
                  warn_storage w') as (new & Hnew & Hshape); [by rewrite Hname|].
      eexists. split; [rewrite Hnew, Hout, H12, <- app_assoc; reflexivity|].
      right. exists name, (header_event w12 name). eexists. split; [reflexivity|].
      destruct (header_event_figures w12 name) as (_ & _ & Hhdr).
      repeat split; try done.
      constructor; [by unfold msg_event; destruct (SLACK_CHANNEL w12)|].
      constructor; [by unfold report_event; destruct (SLACK_CHANNEL w12)|done].
Qed.

(** 110 bytes of recent files under a limit of 100 MB and a warning threshold
    of 80 MB: nothing to report, nothing removed. *)
Example process_folder_quiet :
  let r := process_folder example_folder start_world in
  r.1 = Ok () ∧ output r.2 = [] ∧ fs_files r.2 = example_files.
Proof. by vm_compute. Qed.

(** The same files, a day later than the age limit allows for [b.bin] only,
    and thresholds of 0 MB: [b.bin] goes for its age, then the oldest of the
    rest until nothing is left; one header for the three reports. *)
Example process_folder_reports :
  let folder := <["max_age"%string := PStr "0"]>
                  (<["max_storage"%string := PStr "0"]>
                     (<["warn_storage"%string := PStr "0"]> example_folder)) in
  let w := World example_files example_walk 150 ∅ None None [] in
  let r := process_folder folder w in
  r.1 = Ok () ∧
  output r.2 = [Print (HeaderText false (PStr "lounge")); Print (AgedOutText 0);
                PrintReport [("/srv/uploads/b.bin"%string, 100)];
                Print (OverLimitText 70);
                PrintReport [("/srv/uploads/old/c.bin"%string, 200);
                             ("/srv/uploads/a.bin"%string, 300)]] ∧
  fs_files r.2 = ∅.
Proof. by vm_compute. Qed.

(** ** Validation *)

Lemma validate_attribute_missing folder attribute must_have_value w :
  folder !! attribute = None →
  validate_attribute folder attribute must_have_value w
  = (Raise (SystemExit ("'" +:+ attribute +:+ "' attribute missing from configuration")), w).
Proof. intros H. unfold validate_attribute. by rewrite bool_decide_eq_true_2. Qed.

Lemma validate_attribute_ok folder attribute s w :
  folder !! attribute = Some (PStr s) → strip s ≠ ""%string →
  validate_attribute folder attribute true w = (Ok (), w).
Proof.
  intros H Hs. unfold validate_attribute.
  rewrite bool_decide_eq_false_2 by congruence.
  unfold bind, getitem. rewrite H. simpl. by rewrite bool_decide_eq_false_2.
Qed.

Lemma validate_attribute_optional folder attribute v w :
  folder !! attribute = Some v →
  validate_attribute folder attribute false w = (Ok (), w).
Proof.
  intros H. unfold validate_attribute. by rewrite bool_decide_eq_false_2 by congruence.
Qed.

(** C8, as the code has it.  A folder with the four required attributes, all
    strings that are not blank, and no [warn_storage] key does not pass
    [validate_folder]: the process exits, saying that [warn_storage] is
    missing from the configuration. *)
Theorem validate_folder_requires_warn_storage folder w :
  folder !! "warn_storage"%string = None →
  (∀ attribute,
     attribute ∈ ["name"; "upload_path"; "max_age"; "max_storage"]%string →
     ∃ s, folder !! attribute = Some (PStr s) ∧ strip s ≠ ""%string) →
  validate_folder folder w
  = (Raise (SystemExit "'warn_storage' attribute missing from configuration"), w).
Proof.
  intros Hwarn Hreq. unfold validate_folder.
  destruct (Hreq "name"%string) as (s1 & H1 & Hs1); [set_solver|].
  destruct (Hreq "upload_path"%string) as (s2 & H2 & Hs2); [set_solver|].
  destruct (Hreq "max_age"%string) as (s3 & H3 & Hs3); [set_solver|].
  destruct (Hreq "max_storage"%string) as (s4 & H4 & Hs4); [set_solver|].
  rewrite (bind_ok _ _ _ _ _ (validate_attribute_ok folder _ s1 w H1 Hs1)).
  rewrite (bind_ok _ _ _ _ _ (validate_attribute_ok folder _ s2 w H2 Hs2)).
  rewrite (bind_ok _ _ _ _ _ (validate_attribute_ok folder _ s3 w H3 Hs3)).
  rewrite (bind_ok _ _ _ _ _ (validate_attribute_ok folder _ s4 w H4 Hs4)).
  by rewrite (bind_raise _ _ _ _ _ (validate_attribute_missing folder _ false w Hwarn)).
Qed.

Lemma validate_folder_requires_warn_storage_witness :
  validate_folder (delete "warn_storage"%string example_folder) start_world
  = (Raise (SystemExit "'warn_storage' attribute missing from configuration"), start_world).
Proof.
  apply (validate_folder_requires_warn_storage
           (delete "warn_storage"%string example_folder) start_world).
  - reflexivity.
  - apply Forall_forall.
    repeat first [apply Forall_nil_2 | apply Forall_cons_2; [eexists; by vm_compute|]].
Defined.

(** The same through [main]: the folder stops the run before any folder is
    processed. *)
Example main_requires_warn_storage :
  main "config.json"
    (Some (Config (Some [delete "warn_storage"%string example_folder]) None None)) start_world
  = (Raise (SystemExit "'warn_storage' attribute missing from configuration"), start_world).
Proof. by vm_compute. Qed.

(** With the key there, whatever its value, the folder passes. *)
Lemma validate_folder_ok folder path v w :
  (∀ attribute,
     attribute ∈ ["name"; "upload_path"; "max_age"; "max_storage"]%string →
     ∃ s, folder !! attribute = Some (PStr s) ∧ strip s ≠ ""%string) →
  folder !! "warn_storage"%string = Some v →
  folder !! "upload_path"%string = Some (PStr path) →
  is_Some (fs_walk w !! path) →
  validate_folder folder w = (Ok (), w).
Proof.
  intros Hreq Hwarn Hpath Hdir. unfold validate_folder.
  destruct (Hreq "name"%string) as (s1 & H1 & Hs1); [set_solver|].
  destruct (Hreq "upload_path"%string) as (s2 & H2 & Hs2); [set_solver|].
  destruct (Hreq "max_age"%string) as (s3 & H3 & Hs3); [set_solver|].
  destruct (Hreq "max_storage"%string) as (s4 & H4 & Hs4); [set_solver|].
  rewrite (bind_ok _ _ _ _ _ (validate_attribute_ok folder _ s1 w H1 Hs1)).
  rewrite (bind_ok _ _ _ _ _ (validate_attribute_ok folder _ s2 w H2 Hs2)).
  rewrite (bind_ok _ _ _ _ _ (validate_attribute_ok folder _ s3 w H3 Hs3)).
  rewrite (bind_ok _ _ _ _ _ (validate_attribute_ok folder _ s4 w H4 Hs4)).
  rewrite (bind_ok _ _ _ _ _ (validate_attribute_optional folder _ v w Hwarn)).
  unfold bind, getitem. rewrite Hpath. simpl. unfold os_path_isdir.
  by rewrite bool_decide_eq_true_2.
Qed.

(** ** Slack credentials *)

Lemma read_credential_eq v set count w :
  (∀ x, v = Some x → ∃ s, x = PStr s) →
  read_credential v set count w
  = (Ok (if usable v then count + 1 else count),
     match usable v with Some s => set s w | None => w end).
Proof.
  intros Hstr. unfold read_credential, usable. destruct v as [x|]; [|done].
  destruct (Hstr x eq_refl) as [s ->].
  unfold bind at 1, py_strip, ret at 1. by case_bool_decide.
Qed.

(** C9, as the code has it.  Once the configuration has loaded, with
    credentials that are strings when they are there: a credential counts
    when its key is there and its value is not blank.  If exactly one of the
    two counts, [main] exits with the Slack configuration error and no folder
    is processed; if both or neither count, [main] goes on to process the
    folders, in order.  Either way the credentials that count have been
    stored in the globals. *)
Theorem main_slack_credentials config_file config folders w w1 :
  load_configuration config_file (Some config) w = (Ok config, w1) →
  cfg_folders config = Some folders →
  (∀ x, cfg_slack_auth_token config = Some x → ∃ s, x = PStr s) →
  (∀ x, cfg_slack_channel_id config = Some x → ∃ s, x = PStr s) →
  let token := usable (cfg_slack_auth_token config) in
  let channel := usable (cfg_slack_channel_id config) in
  let w2 := with_credentials token channel w1 in
  main config_file (Some config) w =
    match token, channel with
    | Some _, None | None, Some _ =>
        (Raise (SystemExit "Slack configuration not set correctly"), w2)
    | _, _ => for_each folders process_folder w2
    end.
Proof.
  intros Hload Hfolders Htok Hchan token channel w2. unfold main.
  rewrite (bind_ok _ _ _ _ _ Hload). rewrite Hfolders.
  erewrite bind_ok; [|reflexivity].
  rewrite (bind_ok _ _ _ _ _ (read_credential_eq _ set_SLACK_TOKEN 0 w1 Htok)).
  erewrite bind_ok; [|apply (read_credential_eq _ set_SLACK_CHANNEL _ _ Hchan)].
  subst w2. unfold with_credentials. fold token channel.
  destruct token, channel; reflexivity.
Qed.

Lemma main_slack_credentials_witness :
  let config := Config (Some [example_folder]) (Some (PStr "xoxb-1")) None in
  let token := usable (cfg_slack_auth_token config) in
  let channel := usable (cfg_slack_channel_id config) in
  let w2 := with_credentials token channel start_world in
  main "config.json" (Some config) start_world =
    match token, channel with
    | Some _, None | None, Some _ =>
        (Raise (SystemExit "Slack configuration not set correctly"), w2)
    | _, _ => for_each [example_folder] process_folder w2
    end.
Proof.
  apply (main_slack_credentials "config.json"
           (Config (Some [example_folder]) (Some (PStr "xoxb-1")) None)
           [example_folder] start_world start_world).
  - by vm_compute.
  - reflexivity.
  - intros x Hx. simpl in Hx. injection Hx as <-. by eexists.
  - intros x Hx. simpl in Hx. discriminate Hx.
Defined.

(** Key presence is not what [main] counts.  With [slack_auth_token] there
    but blank and no [slack_channel_id], exactly one key is present and
    [main] does not exit: it processes the folders.  With both keys there and
    a blank channel, [main] exits. *)
Lemma main_counts_blank_credentials_as_missing :
  (main "config.json" (Some (Config (Some [example_folder]) (Some (PStr "")) None))
     start_world).1 = Ok () ∧
  main "config.json" (Some (Config (Some [example_folder]) (Some (PStr "")) None)) start_world
  = for_each [example_folder] process_folder start_world ∧
  (main "config.json"
     (Some (Config (Some [example_folder]) (Some (PStr "xoxb-1")) (Some (PStr "  "))))
     start_world).1 = Raise (SystemExit "Slack configuration not set correctly").
Proof. by vm_compute. Qed.

(** ** Any stable sort by date is [sort_by_date]

    [sorted] is modelled by an insertion sort; Python's own algorithm is
    another stable sort by the same key, and there is only one result such a
    sort can give. *)
Lemma stable_sort_unique (l1 : list file_tuple) : ∀ l2 : list file_tuple,
  StronglySorted date_le l1 → StronglySorted date_le l2 →
  (∀ d, filter (same_date d) l1 = filter (same_date d) l2) →
  l1 = l2.
Proof.
  induction l1 as [|x l1 IH]; intros l2 Hs1 Hs2 Hfilter.
  - destruct l2 as [|y l2]; [done|].
    specialize (Hfilter (item1 y)). rewrite filter_cons_True in Hfilter by done. done.
  - apply StronglySorted_inv in Hs1 as [Hs1 Hx].
    destruct l2 as [|y l2].
    { specialize (Hfilter (item1 x)). rewrite filter_cons_True in Hfilter by done. done. }
    apply StronglySorted_inv in Hs2 as [Hs2 Hy].
    assert (y = x) as ->.
    { destruct (decide (item1 y = item1 x)) as [Heq|Hne].
      - specialize (Hfilter (item1 x)).
        rewrite !filter_cons_True in Hfilter by done. congruence.
      - exfalso.
        assert (Hxin : x ∈ l2).
        { pose proof (Hfilter (item1 x)) as H.
          rewrite filter_cons_True in H by done.
          rewrite filter_cons_False in H by done.
          assert (x ∈ filter (same_date (item1 x)) l2) as Hin by (rewrite <- H; set_solver).
          by apply list_elem_of_filter in Hin as [_ ?]. }
        assert (Hyin : y ∈ l1).
        { pose proof (Hfilter (item1 y)) as H.
          rewrite (filter_cons_True _ y) in H by done.
          rewrite filter_cons_False in H by (unfold same_date; congruence).
          assert (y ∈ filter (same_date (item1 y)) l1) as Hin by (rewrite H; set_solver).
          by apply list_elem_of_filter in Hin as [_ ?]. }
        rewrite Forall_forall in Hx, Hy.
        pose proof (Hx y Hyin). pose proof (Hy x Hxin). unfold date_le in *. lia. }
    f_equal. apply IH; [done..|].
    intros d. specialize (Hfilter d). rewrite !filter_cons in Hfilter.
    destruct (decide (same_date d x)); congruence.
Qed.

Lemma stable_sort_is_sort_by_date (l l' : list file_tuple) :
  StronglySorted date_le l' →
  (∀ d, filter (same_date d) l' = filter (same_date d) l) →
  l' = sort_by_date l.
Proof.
  intros Hs Hstable. apply stable_sort_unique; [done|apply sort_by_date_sorted|].
  intros d. by rewrite Hstable, sort_by_date_stable.
Qed.

(** * Further properties of the script *)

(** ** Validation of the configuration *)

Lemma validate_attribute_same folder attribute must_have_value w :
  (validate_attribute folder attribute must_have_value w).2 = w.
Proof.
  unfold validate_attribute. case_bool_decide; [done|].
  destruct must_have_value; [|done].
  unfold bind, getitem, py_strip. destruct (folder !! attribute) as [[]|]; try done.
  simpl. by case_bool_decide.
Qed.

Lemma validate_attribute_required_iff folder attribute w :
  (validate_attribute folder attribute true w).1 = Ok () ↔ has_value folder attribute.
Proof.
  unfold validate_attribute, has_value. split.
  - case_bool_decide as Hnone; [done|].
    unfold bind, getitem, py_strip. destruct (folder !! attribute) as [[| |s]|]; try done.
    simpl. case_bool_decide; [done|]. eauto.
  - intros (s & Hs & Hblank).
    rewrite bool_decide_eq_false_2 by congruence.
    unfold bind, getitem. rewrite Hs. simpl. by rewrite bool_decide_eq_false_2.
Qed.

Lemma validate_attribute_optional_iff folder attribute w :
  (validate_attribute folder attribute false w).1 = Ok () ↔ is_Some (folder !! attribute).
Proof.
  unfold validate_attribute. split.
  - case_bool_decide as Hnone; [done|]. intros _. by apply not_eq_None_Some.
  - intros [v Hv]. rewrite Hv. by rewrite bool_decide_eq_false_2.
Qed.

Lemma bind_same {A B} (m : M A) (k : A → M B) w :
  (m w).2 = w → (∀ a, (k a w).2 = w) → (bind m k w).2 = w.
Proof.
  intros Hm Hk. unfold bind. destruct (m w) as [[a|e] w'] eqn:H; simpl in Hm; subst w'; [|done].
  apply Hk.
Qed.

Lemma bind_fst_ok_iff {A B} (m : M A) (k : A → M B) w (b : B) :
  (m w).2 = w →
  (bind m k w).1 = Ok b ↔ ∃ a, (m w).1 = Ok a ∧ (k a w).1 = Ok b.
Proof.
  intros Hm. unfold bind. destruct (m w) as [[a|e] w'] eqn:H; simpl in Hm; subst w'; simpl.
  - split; [eauto|]. intros (a' & Ha & Hk). by simplify_eq.
  - split; [done|]. intros (a' & Ha & _). done.
Qed.

(** [validate_folder] reads the configuration and the directory tree, and
    changes nothing. *)
Lemma validate_folder_same folder w : (validate_folder folder w).2 = w.
Proof.
  unfold validate_folder.
  repeat (apply bind_same; [apply validate_attribute_same|intros _]).
  apply bind_same; [unfold getitem; by destruct (folder !! "upload_path"%string)|intros v].
  apply bind_same; [by destruct v|intros path].
  apply bind_same; [done|intros isdir]. by destruct isdir.
Qed.

(** X1. [validate_folder] passes a folder exactly when [name],
    [upload_path], [max_age] and [max_storage] are there as strings that are
    not blank, the key [warn_storage] is there (with any value), and
    [upload_path] names a directory.  Values that are not strings, numbers
    included, do not pass; nothing checks that the thresholds are numbers. *)
Theorem validate_folder_ok_iff folder w :
  (validate_folder folder w).1 = Ok () ↔
  Forall (has_value folder) required_attributes ∧
  is_Some (folder !! "warn_storage"%string) ∧
  ∃ path, folder !! "upload_path"%string = Some (PStr path) ∧ is_Some (fs_walk w !! path).
Proof.
  unfold validate_folder, required_attributes.
  rewrite bind_fst_ok_iff by apply validate_attribute_same.
  setoid_rewrite bind_fst_ok_iff; [|apply validate_attribute_same].
  setoid_rewrite bind_fst_ok_iff; [|apply validate_attribute_same].
  setoid_rewrite bind_fst_ok_iff; [|apply validate_attribute_same].
  setoid_rewrite bind_fst_ok_iff; [|apply validate_attribute_same].
  rewrite !Forall_cons, Forall_nil.
  split.
  - intros ([] & H1 & [] & H2 & [] & H3 & [] & H4 & [] & H5 & H6).
    apply validate_attribute_required_iff in H1, H2, H3, H4.
    apply validate_attribute_optional_iff in H5.
    split; [done|]. split; [done|].
    destruct H2 as (path & Hpath & _). exists path. split; [done|].
    unfold bind, getitem in H6. rewrite Hpath in H6. simpl in H6.
    destruct (decide (is_Some (fs_walk w !! path))) as [Hdir|Hdir]; [done|].
    by rewrite bool_decide_eq_false_2 in H6.
  - intros ((H1 & H2 & H3 & H4 & _) & H5 & path & Hpath & Hdir).
    exists (). split; [by apply validate_attribute_required_iff|].
    exists (). split; [by apply validate_attribute_required_iff|].
    exists (). split; [by apply validate_attribute_required_iff|].
    exists (). split; [by apply validate_attribute_required_iff|].
    exists (). split; [by apply validate_attribute_optional_iff|].
    unfold bind, getitem. rewrite Hpath. simpl. by rewrite bool_decide_eq_true_2.
Qed.

Lemma validate_folders_same folders w : (validate_folders folders w).2 = w.
Proof.
  unfold validate_folders. induction folders as [|f folders IH]; simpl; [done|].
  apply bind_same; [apply validate_folder_same|intros _; apply IH].
Qed.

Lemma validate_folders_ok_iff folders w :
  (validate_folders folders w).1 = Ok () ↔
  Forall (λ folder, (validate_folder folder w).1 = Ok ()) folders.
Proof.
  unfold validate_folders. induction folders as [|f folders IH]; simpl.
  - split; [constructor|done].
  - rewrite bind_fst_ok_iff by apply validate_folder_same.
    rewrite Forall_cons, <- IH. split.
    + by intros ([] & ? & ?).
    + intros [? ?]. by exists ().
Qed.

Lemma load_configuration_same config_file content w :
  (load_configuration config_file content w).2 = w.
Proof.
  unfold load_configuration. destruct content as [c|]; [|done].
  destruct (cfg_folders c) as [folders|]; [|done].
  apply bind_same; [apply validate_folders_same|done].
Qed.

Lemma load_configuration_ok_inv config_file content w config :
  (load_configuration config_file content w).1 = Ok config →
  content = Some config ∧
  ∃ folders, cfg_folders config = Some folders ∧
             Forall (λ folder, (validate_folder folder w).1 = Ok ()) folders.
Proof.
  unfold load_configuration. destruct content as [c|]; [|done].
  destruct (cfg_folders c) as [folders|] eqn:Hfolders; [|done].
  rewrite bind_fst_ok_iff by apply validate_folders_same.
  intros ([] & Hok & Hret). simpl in Hret. injection Hret as <-.
  split; [done|]. exists folders. split; [done|]. by apply validate_folders_ok_iff.
Qed.


(** X2. [load_configuration] changes nothing, and it returns a
    configuration exactly when the file is there, has a [folders] entry, and
    every folder of it passes [validate_folder]; what it returns is then the
    content of the file. *)
Theorem load_configuration_ok_iff config_file content w config :
  (load_configuration config_file content w).2 = w ∧
  ((load_configuration config_file content w).1 = Ok config ↔
   content = Some config ∧
   ∃ folders, cfg_folders config = Some folders ∧
              Forall (λ folder, (validate_folder folder w).1 = Ok ()) folders).
Proof.
  unfold load_configuration. destruct content as [c|]; [|split; [done|]].
  - destruct (cfg_folders c) as [folders|] eqn:Hfolders.
    + split.
      * apply bind_same; [apply validate_folders_same|done].
      * rewrite bind_fst_ok_iff by apply validate_folders_same.
        split.
        -- intros ([] & Hok & Hret). simpl in Hret. injection Hret as <-.
           split; [done|]. exists folders. split; [done|].
           by apply validate_folders_ok_iff.
        -- intros (Hc & folders' & Hf & Hall). injection Hc as <-.
           rewrite Hfolders in Hf. injection Hf as <-.
           exists (). split; [by apply validate_folders_ok_iff|done].
    + split; [done|]. split; [done|].
      intros (Hc & folders' & Hf & _). injection Hc as <-. congruence.
  - split; [done|]. by intros [? _].
Qed.

(** X3. A configuration error is fatal before anything is done: when
    [load_configuration] fails (no file, no [folders], or any folder, even
    the last, that does not pass validation), [main] ends with the same
    error and the world is as it was: no file removed, nothing printed or
    posted, no Slack global set. *)
Theorem main_configuration_error_is_fatal config_file content w e :
  (load_configuration config_file content w).1 = Raise e →
  main config_file content w = (Raise e, w).
Proof.
  intros Hload. unfold main. apply bind_raise.
  pose proof (load_configuration_same config_file content w) as Hsame.
  destruct (load_configuration config_file content w) as [r w'].
  simpl in *. by subst.
Qed.

Lemma main_configuration_error_is_fatal_witness :
  main "config.json"
    (Some (Config (Some [example_folder; <["max_age"%string := PStr " "]> example_folder])
             None None)) start_world
  = (Raise (SystemExit "'max_age' attribute cannot be empty"), start_world).
Proof.
  apply (main_configuration_error_is_fatal "config.json"
           (Some (Config (Some [example_folder;
                                <["max_age"%string := PStr " "]> example_folder])
                    None None)) start_world).
  by vm_compute.
Defined.

(** ** The warning check without a threshold *)



(** ** Folders one after the other *)





(** ** [get_under_max_size] with nothing to do *)

(** X5. Called with a total that is not over the target, on any list,
    [get_under_max_size] removes no file and still ships a report, an empty
    one. *)
Theorem get_under_max_size_nothing_to_do file_list items total_size max_storage w :
  heap w !! file_list = Some (PyList items) →
  total_size ≤ max_storage →
  let r := get_under_max_size file_list total_size max_storage w in
  r.1 = Ok () ∧
  fs_files r.2 = fs_files w ∧
  output r.2 = output w ++ [report_event w [] OverQuotaTitle].
Proof.
  intros Hfl Hle r.
  assert (Hk : evict_count (sort_by_date items) total_size max_storage = 0%nat).
  { destruct (sort_by_date items); simpl; [done|].
    by rewrite (proj2 (Z.ltb_ge _ _) Hle). }
  pose proof (get_under_max_size_run file_list total_size max_storage w items Hfl) as Hrun.
  cbv zeta in Hrun. rewrite Hk in Hrun. simpl in Hrun.
  specialize (Hrun (λ x Hx, False_ind _ (not_elem_of_nil x Hx)) (NoDup_nil_2)).
  rewrite decide_True in Hrun by lia.
  subst r. rewrite Hrun. done.
Qed.

Lemma get_under_max_size_nothing_to_do_witness :
  let r := get_under_max_size 1%positive 110 200 example_world in
  r.1 = Ok () ∧
  fs_files r.2 = fs_files example_world ∧
  output r.2 = output example_world ++ [report_event example_world [] OverQuotaTitle].
Proof.
  apply (get_under_max_size_nothing_to_do 1%positive example_items 110 200 example_world).
  - reflexivity.
  - lia.
Defined.

(** ** Thresholds that are not numbers *)

Lemma py_int_eq v w :
  py_int v w
  = (match int_value v with
     | Some n => Ok n
     | None => Raise (match v with PNone => TypeError | _ => ValueError end)
     end, w).
Proof. destruct v as [|n|s]; simpl; try done. by destruct (int_of_str s). Qed.

Lemma int_of_str_blank s : strip s = ""%string → int_of_str s = None.
Proof. intros H. unfold int_of_str. by rewrite H. Qed.

(** X6. Validation lets [warn_storage] be blank, and [process_folder]
    cannot read a blank one: a folder whose [warn_storage] is an empty
    string, or white space only, passes [validate_folder], and
    [process_folder] then raises [ValueError] on it before it has looked at
    any file: nothing is removed and nothing is printed. *)
Theorem blank_warn_storage_passes_validation folder path v1 d v2 n s w :
  Forall (has_value folder) required_attributes →
  folder !! "upload_path"%string = Some (PStr path) →
  is_Some (fs_walk w !! path) →
  folder !! "max_age"%string = Some v1 → int_value v1 = Some d →
  folder !! "max_storage"%string = Some v2 → int_value v2 = Some n →
  folder !! "warn_storage"%string = Some (PStr s) → strip s = ""%string →
  validate_folder folder w = (Ok (), w) ∧
  process_folder folder w = (Raise ValueError, w).
Proof.
  intros Hreq Hpath Hdir Hage Hd Hmax Hn Hwarn Hs. split.
  - apply (validate_folder_ok folder path (PStr s)); [|done..].
    intros attribute Hattr. rewrite Forall_forall in Hreq. by apply Hreq.
  - unfold process_folder.
    erewrite bind_ok; [|unfold getitem; rewrite Hage; reflexivity].
    erewrite bind_ok; [|rewrite py_int_eq, Hd; reflexivity].
    erewrite bind_ok; [|unfold getitem; rewrite Hmax; reflexivity].
    erewrite bind_ok; [|rewrite py_int_eq, Hn; reflexivity].
    apply bind_raise.
    rewrite bool_decide_eq_true_2 by (by rewrite Hwarn).
    erewrite bind_ok; [|unfold getitem; rewrite Hwarn; reflexivity].
    apply bind_raise. rewrite py_int_eq. simpl. by rewrite (int_of_str_blank s Hs).
Qed.

Lemma blank_warn_storage_passes_validation_witness :
  validate_folder (<["warn_storage"%string := PStr " "]> example_folder) start_world
  = (Ok (), start_world) ∧
  process_folder (<["warn_storage"%string := PStr " "]> example_folder) start_world
  = (Raise ValueError, start_world).
Proof.
  apply (blank_warn_storage_passes_validation
           (<["warn_storage"%string := PStr " "]> example_folder) "/srv/uploads"
           (PStr "30") 30 (PStr "100") 100 " " start_world).
  - repeat first [apply Forall_nil_2 | apply Forall_cons_2; [eexists; by vm_compute|]].
  - reflexivity.
  - vm_compute. eauto.
  - reflexivity.
  - reflexivity.
  - reflexivity.
  - reflexivity.
  - reflexivity.
  - reflexivity.
Defined.

(** ** Without a channel, everything goes to the terminal *)

#[local] Instance same_io_refl : Reflexive same_io.
Proof. by intros w. Qed.
#[local] Instance same_io_trans : Transitive same_io.
Proof. intros w1 w2 w3 [H1 H1'] [H2 H2']. split; congruence. Qed.

#[local] Instance console_only_refl : Reflexive console_only.
Proof. intros w. split; [done|]. exists []. by rewrite app_nil_r. Qed.
#[local] Instance console_only_trans : Transitive console_only.
Proof.
  intros w1 w2 w3 (Hc1 & n1 & Ho1 & Hn1) (Hc2 & n2 & Ho2 & Hn2).
  split; [congruence|]. exists (n1 ++ n2). rewrite Ho2, Ho1, app_assoc. split; [done|].
  intros Hnone. apply Forall_app. split; [auto|]. apply Hn2. congruence.
Qed.

Lemma preserves_pure (R : world → world → Prop) `{!Reflexive R} {A} (m : M A) :
  (∀ w, (m w).2 = w) → preserves R m.
Proof. intros H w. by rewrite H. Qed.

Lemma same_io_console {A} (m : M A) : preserves same_io m → preserves console_only m.
Proof.
  intros H w. destruct (H w) as [Hout Hch]. split; [done|].
  exists []. rewrite app_nil_r. done.
Qed.

Lemma getitem_same d key w : (getitem d key w).2 = w.
Proof. unfold getitem. by destruct (d !! key). Qed.

Lemma py_int_same v w : (py_int v w).2 = w.
Proof. by rewrite py_int_eq. Qed.

Lemma as_path_same v w : (as_path v w).2 = w.
Proof. by destruct v. Qed.

Lemma os_stat_same path w : (os_stat path w).2 = w.
Proof. unfold os_stat. by destruct (fs_files w !! path). Qed.

Lemma delete_file_io filename mdate io : preserves same_io (delete_file filename mdate io).
Proof.
  intros w. unfold delete_file, bind, io_write, os_remove, same_io.
  repeat (case_match; simplify_eq/=; try done).
Qed.

Lemma list_append_io l x : preserves same_io (list_append l x).
Proof. intros w. unfold list_append, same_io. by repeat case_match. Qed.

Lemma alloc_io o : preserves same_io (alloc o).
Proof. by intros w. Qed.

Lemma sorted_io file_list : preserves same_io (sorted file_list).
Proof.
  intros w. unfold sorted, bind, list_items, alloc, same_io.
  by repeat (case_match; simplify_eq/=).
Qed.

Lemma scan_files_io dir_name e fl rp files : ∀ total_size,
  preserves same_io (scan_files dir_name files e fl rp total_size).
Proof.
  induction files as [|fname files IH]; intros total_size; cbn [scan_files].
  - by apply preserves_ret.
  - apply preserves_bind; [apply _|apply preserves_pure; [apply _|apply os_stat_same]|].
    intros st. cbv zeta. destruct (st_mtime st <? e).
    + apply preserves_bind; [apply _|apply delete_file_io|intros _]. apply IH.
    + apply preserves_bind; [apply _|apply list_append_io|intros _]. apply IH.
Qed.

Lemma scan_walk_io e fl rp walk : ∀ total_size,
  preserves same_io (scan_walk walk e fl rp total_size).
Proof.
  induction walk as [|[dir_name files] walk IH]; intros total_size; cbn [scan_walk].
  - by apply preserves_ret.
  - apply preserves_bind; [apply _|apply scan_files_io|intros t]. apply IH.
Qed.

Lemma post_message_console mrkdwn plain : preserves console_only (post_message mrkdwn plain).
Proof.
  intros w. rewrite post_message_eq. split; [done|].
  exists [msg_event w mrkdwn plain]. split; [done|].
  intros Hnone. unfold msg_event. rewrite Hnone. by repeat constructor.
Qed.

Lemma ship_report_console content title : preserves console_only (ship_report content title).
Proof.
  intros w. rewrite ship_report_eq. split; [done|].
  exists [report_event w content title]. split; [done|].
  intros Hnone. unfold report_event. rewrite Hnone. by repeat constructor.
Qed.

Lemma report_header_console folder done_header :
  preserves console_only (report_header folder done_header).
Proof.
  unfold report_header.
  apply preserves_bind; [apply _| |intros _; apply (preserves_ret console_only)].
  destruct done_header; simpl; [apply (preserves_ret console_only)|].
  apply preserves_bind; [apply _|apply preserves_pure; [apply _|apply getitem_same]|].
  intros name. apply post_message_console.
Qed.

Lemma get_under_max_size_console file_list total_size max_storage :
  preserves console_only (get_under_max_size file_list total_size max_storage).
Proof.
  unfold get_under_max_size.
  apply preserves_bind; [apply _|apply same_io_console, sorted_io|intros sl].
  apply preserves_bind; [apply _|apply same_io_console, alloc_io|intros rp].
  apply preserves_bind; [apply _|apply preserves_pure; [apply _|apply list_items_same]|].
  intros items.
  apply preserves_bind; [apply _| |intros _].
  { apply same_io_console, while_over_preserves; [apply _..|intros; apply delete_file_io]. }
  apply preserves_bind; [apply _|apply preserves_pure; [apply _|apply getvalue_same]|].
  intros out. apply ship_report_console.
Qed.

Lemma process_folder_console folder : preserves console_only (process_folder folder).
Proof.
  unfold process_folder.
  apply preserves_bind; [apply _|apply preserves_pure; [apply _|apply getitem_same]|intros v1].
  apply preserves_bind; [apply _|apply preserves_pure; [apply _|apply py_int_same]|intros d].
  apply preserves_bind; [apply _|apply preserves_pure; [apply _|apply getitem_same]|intros v2].
  apply preserves_bind; [apply _|apply preserves_pure; [apply _|apply py_int_same]|intros n].
  apply preserves_bind; [apply _| |intros warn].
  { case_bool_decide; [|apply (preserves_ret console_only)].
    apply preserves_bind; [apply _|apply preserves_pure; [apply _|apply getitem_same]|].
    intros v3.
    apply preserves_bind; [apply _|apply preserves_pure; [apply _|apply py_int_same]|].
    intros m. apply (preserves_ret console_only). }
  apply preserves_bind; [apply _|by intros ?|intros now].
  apply preserves_bind; [apply _|apply same_io_console, alloc_io|intros fl].
  apply preserves_bind; [apply _|apply same_io_console, alloc_io|intros rp].
  apply preserves_bind; [apply _|apply preserves_pure; [apply _|apply getitem_same]|intros v4].
  apply preserves_bind; [apply _|apply preserves_pure; [apply _|apply as_path_same]|intros top].
  apply preserves_bind; [apply _|by intros ?|intros walk].
  apply preserves_bind; [apply _|apply same_io_console, scan_walk_io|intros total].
  apply preserves_bind; [apply _| |intros oh].
  { unfold report_old_files.
    apply preserves_bind; [apply _|apply preserves_pure; [apply _|apply getvalue_same]|].
    intros out. destruct (negb _); [|apply (preserves_ret console_only)].
    apply preserves_bind; [apply _|apply report_header_console|intros oh].
    apply preserves_bind; [apply _|apply post_message_console|intros _].
    apply preserves_bind; [apply _|apply ship_report_console|intros _].
    apply (preserves_ret console_only). }
  unfold check_storage. destruct (_ <? _).
  - apply preserves_bind; [apply _|apply report_header_console|intros oh'].
    apply preserves_bind; [apply _|apply post_message_console|intros _].
    apply get_under_max_size_console.
  - apply preserves_bind; [apply _| |intros over].
    { apply preserves_pure; [apply _|]. intros w. by destruct warn. }
    destruct over; [|apply (preserves_ret console_only)].
    apply preserves_bind; [apply _|apply report_header_console|intros oh'].
    apply post_message_console.
Qed.

Lemma read_credential_unusable v set count w :
  usable v = None → (read_credential v set count w).2 = w.
Proof.
  unfold usable, read_credential. destruct v as [[| |s]|]; try done.
  unfold bind, py_strip, ret. by case_bool_decide.
Qed.

(** X7. The console fallback, for the whole run: when no channel is set
    and the configuration gives none that counts (no [slack_channel_id], or a
    blank one), nothing [main] emits is sent to Slack: every message and
    every report is printed, whatever the folders hold and however the run
    ends. *)
Theorem main_console_only config_file content w :
  SLACK_CHANNEL w = None →
  (∀ config, content = Some config → usable (cfg_slack_channel_id config) = None) →
  Forall is_console (emitted w (main config_file content w).2).
Proof.
  intros Hnone Hchan.
  assert (Hmain : console_only w (main config_file content w).2).
  { unfold main. unfold bind at 1.
    destruct (load_configuration config_file content w) as [[config|e] w0] eqn:Hload.
    - pose proof (load_configuration_same config_file content w) as Hsame.
      pose proof (load_configuration_ok_inv config_file content w config) as Hok.
      rewrite Hload in Hsame, Hok. simpl in Hsame, Hok. subst w0.
      destruct (Hok eq_refl) as (Hcontent & _).
      specialize (Hchan config Hcontent).
      clear Hnone Hload Hok. revert w.
      apply preserves_bind; [apply _| |intros folders].
      { destruct (cfg_folders config);
          [apply (preserves_ret console_only)|apply (preserves_raise console_only)]. }
      apply preserves_bind; [apply _| |intros count1].
      { intros w. unfold read_credential.
        destruct (cfg_slack_auth_token config) as [v|]; [|done].
        unfold bind at 1. destruct (py_strip v w) as [[value|e] w'] eqn:Hstrip.
        - assert (w' = w) as ->
            by (unfold py_strip, ret, raise in Hstrip; destruct v; by simplify_eq).
          destruct (negb _); [|done]. split; [done|]. exists []. by rewrite app_nil_r.
        - assert (w' = w) as ->
            by (unfold py_strip, ret, raise in Hstrip; destruct v; by simplify_eq).
          done. }
      apply preserves_bind; [apply _| |intros count2].
      { apply preserves_pure; [apply _|]. intros w. by apply read_credential_unusable. }
      destruct (_ && _); [apply (preserves_raise console_only)|].
      apply preserves_for_each; [apply _..|]. apply process_folder_console.
    - pose proof (load_configuration_same config_file content w) as Hsame.
      rewrite Hload in Hsame. simpl in Hsame. subst w0. done. }
  destruct Hmain as (_ & new & Hout & Hnew). rewrite (emitted_app _ _ _ Hout). auto.
Qed.

Lemma main_console_only_witness :
  let folder := <["max_age"%string := PStr "0"]>
                  (<["max_storage"%string := PStr "0"]>
                     (<["warn_storage"%string := PStr "0"]> example_folder)) in
  let w := World example_files example_walk 150 ∅ None None [] in
  Forall is_console
    (emitted w (main "config.json" (Some (Config (Some [folder]) None (Some (PStr " ")))) w).2).
Proof.
  apply (main_console_only "config.json").
  - reflexivity.
  - intros config Hconfig. injection Hconfig as <-. reflexivity.
Defined.

(** ** A folder from end to end *)








(** In that folder [b.bin], 40 days old, goes for its age; 70 bytes remain
    and nothing more is removed. *)
Example process_folder_dated :
  let r := process_folder example_folder dated_world in
  r.1 = Ok () ∧
  output r.2 = [Print (HeaderText false (PStr "lounge")); Print (AgedOutText 30);
                PrintReport [("/srv/uploads/b.bin"%string, 738960 * day)]] ∧
  fs_files r.2 = delete "/srv/uploads/b.bin"%string dated_files.
Proof. by vm_compute. Qed.

Lemma expired_lines_nil fs cutoff names :
  (∀ path st, path ∈ names → fs !! path = Some st → cutoff ≤ st_mtime st) →
  expired_lines fs cutoff names = [].
Proof.
  intros Hrecent. apply elem_of_nil_inv. intros [path mt] Hin.
  apply elem_of_expired_lines in Hin as (Hpath & st & Hst & He & _).
  specialize (Hrecent path st Hpath Hst). unfold is_expired in He.
  apply Z.ltb_lt in He. lia.
Qed.



(** ** Scanning twice *)

Lemma listing_names_filter dir_name (fs fs2 : gmap string file_stat) (files : list string) :
  (∀ n, is_Some (fs2 !! n) → is_Some (fs !! n)) →
  full_name dir_name <$> filter (λ f, is_Some (fs2 !! full_name dir_name f)) files
  = filter (λ n, is_Some (fs2 !! n))
      (full_name dir_name <$> filter (λ f, is_Some (fs !! full_name dir_name f)) files).
Proof.
  intros Hsub. induction files as [|f files IH]; [done|].
  rewrite !filter_cons.
  destruct (decide (is_Some (fs2 !! full_name dir_name f))) as [H2|H2].
  - rewrite decide_True by auto. rewrite !fmap_cons, filter_cons_True by done.
    by rewrite IH.
  - destruct (decide (is_Some (fs !! full_name dir_name f))); [|done].
    rewrite fmap_cons, filter_cons_False by done. done.
Qed.

(** After files have been removed, the walk lists what it listed before,
    less the files that are gone. *)
Lemma listing_after_removal w w2 top :
  fs_walk w2 = fs_walk w →
  (∀ n, is_Some (fs_files w2 !! n) → is_Some (fs_files w !! n)) →
  visited_names (listing w2 top)
  = filter (λ n, is_Some (fs_files w2 !! n)) (visited_names (listing w top)).
Proof.
  intros Hwalk Hsub. unfold visited_names, listing. rewrite Hwalk.
  induction (default [] (fs_walk w !! top)) as [|[dir_name files] dirs IH]; [done|].
  rewrite !fmap_cons. cbn [mjoin list_join fst snd]. rewrite filter_app.
  f_equal; [|exact IH]. by apply listing_names_filter.
Qed.

Lemma retained_items_after_scan fs e names :
  (∀ n, n ∈ names → is_Some (fs !! n)) →
  let fs1 := remove_files (expired_lines fs e names).*1 fs in
  ∀ l, l ⊆ names →
    retained_items fs1 e (filter (λ n, is_Some (fs1 !! n)) l) = retained_items fs e l.
Proof.
  intros Hdisk fs1 l. induction l as [|n l IH]; intros Hl; [done|].
  assert (Hn : n ∈ names) by set_solver.
  assert (Hl' : l ⊆ names) by set_solver.
  destruct (Hdisk n Hn) as [st Hst].
  assert (Hlook : fs1 !! n = if is_expired e st then None else Some st).
  { subst fs1. rewrite remove_files_lookup.
    destruct (is_expired e st) eqn:He.
    - rewrite decide_True; [done|]. apply list_elem_of_fmap. exists (n, st_mtime st).
      split; [done|]. apply elem_of_expired_lines. eauto 6.
    - rewrite decide_False; [done|]. intros Hin.
      apply list_elem_of_fmap in Hin as ([n' mt] & -> & Hin).
      apply elem_of_expired_lines in Hin as (_ & st' & Hst' & He' & _). simpl in *.
      congruence. }
  destruct (is_expired e st) eqn:He.
  - rewrite filter_cons_False by (rewrite Hlook; by intros [? ?]).
    destruct (classify_cons_expired fs e n l st Hst He) as [_ ->]. by apply IH.
  - rewrite filter_cons_True by (rewrite Hlook; eauto).
    destruct (classify_cons_retained fs1 e n (filter (λ n, is_Some (fs1 !! n)) l) st Hlook He)
      as [_ ->].
    destruct (classify_cons_retained fs e n l st Hst He) as [_ ->].
    f_equal. by apply IH.
Qed.

(** X10. Scanning is idempotent.  After a scan of the files the walk
    lists (each once) with some cutoff, a second scan of the same tree with
    the same cutoff, from a fresh list and a fresh report, removes no file,
    writes nothing to its report, and returns the same total with the same
    retained list as the first. *)
Theorem scan_walk_idempotent top e fl rp fl2 rp2 w w2 :
  heap w !! fl = Some (PyList []) →
  heap w !! rp = Some (StringIO []) →
  NoDup (visited_names (listing w top)) →
  let first := scan_walk (listing w top) e fl rp 0 w in
  fs_files w2 = fs_files first.2 →
  fs_walk w2 = fs_walk w →
  heap w2 !! fl2 = Some (PyList []) →
  heap w2 !! rp2 = Some (StringIO []) →
  ∃ w3, scan_walk (listing w2 top) e fl2 rp2 0 w2 = (first.1, w3) ∧
        fs_files w3 = fs_files w2 ∧
        heap w3 !! rp2 = Some (StringIO []) ∧
        heap w3 !! fl2 = heap first.2 !! fl.
Proof.
  intros Hfl Hrp Hnd first Hfs2 Hwalk2 Hfl2 Hrp2.
  set (names := visited_names (listing w top)) in *.
  assert (Hne : fl ≠ rp) by (intros ->; congruence).
  assert (Hne2 : fl2 ≠ rp2) by (intros ->; congruence).
  pose proof (scan_walk_run e fl rp (listing w top) 0 w [] [] Hfl Hrp
                (listing_on_disk w top) Hnd) as Hfirst.
  cbv zeta in Hfirst. fold names first in Hfirst.
  set (R := retained_items (fs_files w) e names) in *.
  set (E := expired_lines (fs_files w) e names) in *.
  rewrite Hfirst in Hfs2 |- *. simpl in Hfs2. simpl fst. simpl snd.
  set (fs1 := remove_files E.*1 (fs_files w)) in *.
  assert (Hsub : ∀ n, is_Some (fs_files w2 !! n) → is_Some (fs_files w !! n)).
  { intros n. rewrite Hfs2. subst fs1. rewrite remove_files_lookup. by case_decide. }
  pose proof (listing_after_removal w w2 top Hwalk2 Hsub) as Hnames2.
  fold names in Hnames2.
  assert (Hnd2 : NoDup (visited_names (listing w2 top))).
  { rewrite Hnames2. by apply NoDup_filter. }
  pose proof (retained_items_after_scan (fs_files w) e names (listing_on_disk w top) names
                (reflexivity _)) as HR2.
  cbv zeta in HR2. fold E fs1 R in HR2.
  assert (HE2 : expired_lines (fs_files w2) e (visited_names (listing w2 top)) = []).
  { apply expired_lines_nil. intros path st Hpath Hst.
    rewrite Hnames2 in Hpath. apply list_elem_of_filter in Hpath as [_ Hpath].
    rewrite Hfs2 in Hst. unfold fs1 in Hst. rewrite remove_files_lookup in Hst.
    destruct (decide (path ∈ E.*1)) as [|Hnot]; [done|].
    destruct (Z.le_gt_cases e (st_mtime st)) as [|Hlt]; [done|].
    exfalso. apply Hnot. apply list_elem_of_fmap. exists (path, st_mtime st).
    split; [done|]. apply elem_of_expired_lines. split; [done|]. exists st.
    split; [done|]. split; [|done]. unfold is_expired. apply Z.ltb_lt. lia. }
  pose proof (scan_walk_run e fl2 rp2 (listing w2 top) 0 w2 [] [] Hfl2 Hrp2
                (listing_on_disk w2 top) Hnd2) as Hsecond.
  cbv zeta in Hsecond. rewrite HE2 in Hsecond.
  assert (HR2' : retained_items (fs_files w2) e (visited_names (listing w2 top)) = R).
  { rewrite Hnames2, Hfs2. exact HR2. }
  rewrite HR2' in Hsecond.
  eexists. split; [exact Hsecond|]. simpl.
  split; [done|]. split.
  - rewrite lookup_insert_ne by done. by rewrite lookup_insert_eq.
  - by rewrite !lookup_insert_eq.
Qed.

Lemma scan_walk_idempotent_witness :
  let first := scan_walk (listing scan_world "/srv/uploads") 150 1%positive 2%positive 0
                 scan_world in
  let w2 := set_heap (<[3%positive := PyList []]> (<[4%positive := StringIO []]> (heap first.2)))
              first.2 in
  ∃ w3, scan_walk (listing w2 "/srv/uploads") 150 3%positive 4%positive 0 w2 = (first.1, w3) ∧
        fs_files w3 = fs_files w2 ∧
        heap w3 !! 4%positive = Some (StringIO []) ∧
        heap w3 !! 3%positive = heap first.2 !! 1%positive.
Proof.
  apply (scan_walk_idempotent "/srv/uploads" 150 1%positive 2%positive 3%positive 4%positive
           scan_world).
  - reflexivity.
  - reflexivity.
  - apply (bool_decide_unpack _). by vm_compute.
  - reflexivity.
  - reflexivity.
  - by vm_compute.
  - by vm_compute.
Defined.

(** ** White space

    [strip] on the encodings of Python's white space: a no-break space
    (U+00A0) alone is blank, an ideographic space (U+3000) and a line
    separator (U+2028) around a word are removed, and a byte that only looks
    like part of one is kept. *)
Example strip_no_break_space :
  strip (String (ascii_of_nat 194) (String (ascii_of_nat 160) "")) = ""%string.
Proof. reflexivity. Qed.

Example strip_wide_spaces :
  strip (String (ascii_of_nat 227) (String (ascii_of_nat 128) (String (ascii_of_nat 128)
           ("ab" +:+ String (ascii_of_nat 226) (String (ascii_of_nat 128)
                       (String (ascii_of_nat 168) " "))))))
  = "ab"%string.
Proof. reflexivity. Qed.

Example strip_keeps_other_bytes :
  strip (String (ascii_of_nat 195) (String (ascii_of_nat 160) " x "))
  = String (ascii_of_nat 195) (String (ascii_of_nat 160) " x").
Proof. reflexivity. Qed.

(** A [slack_auth_token] that is a no-break space is blank: it does not
    count, and with no channel [main] goes on to the folders. *)
Example main_no_break_space_token :
  main "config.json"
    (Some (Config (Some [example_folder])
             (Some (PStr (String (ascii_of_nat 194) (String (ascii_of_nat 160) "")))) None))
    start_world
  = for_each [example_folder] process_folder start_world.
Proof. by vm_compute. Qed.
